(** * prover_v2/verification.py: extraction of Lean code, submission to the
      Lean 4 verifier and classification of its answers

    A shallow embedding of [extract_lean_code], [format_error_check] and
    [process_jsonl_file].  Python texts are lists of Unicode code points;
    the calls on the verifier ([Lean4ServerScheduler]) are recorded in a
    trace, and exceptions are explicit results. *)

From Stdlib Require Import String Ascii DecimalString.
From Stdlib Require Import NArith ZArith QArith Bool Arith Lia List.
Import ListNotations.
Close Scope Q_scope.

Set Implicit Arguments.
Set Warnings "-register-all".

(** ** Python texts *)

Module Py.

(** A [str] is a sequence of code points. *)
Definition char := N.
Definition str := list char.

Definition of_string (s : string) : str :=
  map N_of_ascii (list_ascii_of_string s).

Definition nl : char := 10%N.

Definition char_eqb (a b : char) : bool := N.eqb a b.

(** [str.isspace] on one code point, which is also what [\s] of a text
    pattern of [re] tests. *)
Definition is_space (c : char) : bool :=
  ((9 <=? c) && (c <=? 13) || (28 <=? c) && (c <=? 32)
   || (c =? 133) || (c =? 160) || (c =? 5760)
   || (8192 <=? c) && (c <=? 8202)
   || (c =? 8232) || (c =? 8233) || (c =? 8239) || (c =? 8287)
   || (c =? 12288))%N.

(** [s.startswith(p)] *)
Fixpoint startswith (p s : str) : bool :=
  match p, s with
  | [], _ => true
  | x :: p', y :: s' => char_eqb x y && startswith p' s'
  | _ :: _, [] => false
  end.

(** [s.lstrip()], [s.rstrip()] and [s.strip()] *)
Fixpoint lstrip (s : str) : str :=
  match s with
  | c :: s' => if is_space c then lstrip s' else s
  | [] => []
  end.

Definition rstrip (s : str) : str := rev (lstrip (rev s)).

Definition strip (s : str) : str := rstrip (lstrip s).

(** The leftmost occurrence of [sep] in [s]: the text before it and the
    text after it ([s.partition(sep)] without the middle). *)
Fixpoint find (sep s : str) : option (str * str) :=
  if startswith sep s then Some ([], skipn (length sep) s)
  else match s with
       | [] => None
       | c :: s' =>
           match find sep s' with
           | Some (b, a) => Some (c :: b, a)
           | None => None
           end
       end.

(** The rightmost occurrence of [sep] in [s]. *)
Fixpoint rfind (sep s : str) : option (str * str) :=
  match s with
  | [] => if startswith sep [] then Some ([], []) else None
  | c :: s' =>
      match rfind sep s' with
      | Some (b, a) => Some (c :: b, a)
      | None =>
          if startswith sep s then Some ([], skipn (length sep) s) else None
      end
  end.

(** [sep in s] *)
Definition contains (sep s : str) : bool :=
  match find sep s with Some _ => true | None => false end.

(** [s.split(sep)] for a non-empty [sep]: the pieces between the
    occurrences found from the left, one after the other.  [n] bounds the
    number of cuts; [split] gives it the length of the text. *)
Fixpoint split_upto (n : nat) (sep s : str) : list str :=
  match n with
  | O => [s]
  | S n' =>
      match find sep s with
      | None => [s]
      | Some (b, a) => b :: split_upto n' sep a
      end
  end.

Definition split (sep s : str) : list str := split_upto (length s) sep s.

(** [s.split(sep, 1)] *)
Definition split1 (sep s : str) : list str := split_upto 1 sep s.

(** [s.rsplit(sep, 1)] *)
Definition rsplit1 (sep s : str) : list str :=
  match rfind sep s with
  | Some (b, a) => [b; a]
  | None => [s]
  end.

End Py.

(** ** The two patterns of [re] the extractor uses *)

Module Re.
Import Py.

(** A pattern is a sequence of items: a literal character, or a greedy
    repetition [c*] of a character class, which may be the capture group. *)
Inductive item : Type :=
  | Lit (c : char)
  | Star (cls : char -> bool) (group : bool).

Definition pattern := list item.

Definition lits (s : str) : pattern := map Lit s.

(** A greedy repetition of the class [cls] followed by the rest of the
    pattern: it takes as many characters as it can and gives them back
    one by one while the rest of the pattern fails. *)
Fixpoint star_match (cls : char -> bool) (group : bool)
    (rest : str -> option (str * str)) (s : str) : option (str * str) :=
  let stop :=
    match rest s with
    | Some (g, r) => Some (if group then [] else g, r)
    | None => None
    end in
  match s with
  | x :: s' =>
      if cls x then
        match star_match cls group rest s' with
        | Some (g, r) => Some (if group then x :: g else g, r)
        | None => stop
        end
      else stop
  | [] => stop
  end.

(** A backtracking match of the pattern at the start of [s]: the text of
    the capture group (empty when the pattern has none) and the text left
    after the match. *)
Fixpoint match_here (p : pattern) : str -> option (str * str) :=
  match p with
  | [] => fun s => Some ([], s)
  | Lit c :: p' =>
      fun s =>
        match s with
        | x :: s' => if char_eqb x c then match_here p' s' else None
        | [] => None
        end
  | Star cls group :: p' => star_match cls group (match_here p')
  end.

(** [re.search]: the match at the leftmost position that has one. *)
Fixpoint search (p : pattern) (s : str) : option (str * str) :=
  match match_here p s with
  | Some m => Some m
  | None =>
      match s with
      | [] => None
      | _ :: s' => search p s'
      end
  end.

(** [pattern.finditer]: the spans [(start, end)] of the matches found from
    the left, each search starting where the previous match ended.  [skip]
    counts the characters of the last match still to pass, [pos] is the
    position of [s] in the whole text.  (Neither pattern of this program
    matches the empty text, whose handling is left out.) *)
Fixpoint finditer_from (p : pattern) (skip pos : nat) (s : str)
  : list (nat * nat) :=
  match s with
  | [] => []
  | _ :: s' =>
      match skip with
      | S k => finditer_from p k (S pos) s'
      | O =>
          match match_here p s with
          | Some (_, r) =>
              let len := length s - length r in
              (pos, pos + len) :: finditer_from p (len - 1) (S pos) s'
          | None => finditer_from p 0 (S pos) s'
          end
      end
  end.

Definition finditer (p : pattern) (s : str) : list (nat * nat) :=
  finditer_from p 0 0 s.

Definition any (_ : char) : bool := true.

(** The pattern of the proof body under [re.DOTALL]: [:=], white space,
    and the group of everything that follows. *)
Definition proof_body_pattern : pattern :=
  lits (of_string ":=") ++ [Star is_space false; Star any true].

(** The pattern of the placeholder: [:=], white space, [sorry]. *)
Definition sorry_pattern : pattern :=
  lits (of_string ":=") ++ [Star is_space false] ++ lits (of_string "sorry").

End Re.

(** ** Values and results *)

(** A value read from JSON, as far as the program tells values apart: a
    text, a list, or anything else (number, boolean, null, object), of
    which only the text [str()] gives is kept. *)
Inductive value : Type :=
  | VStr (s : Py.str)
  | VList (l : list value)
  | VOther (repr : Py.str).

Inductive exn : Type :=
  | ValueError
  | IndexError
  | OSError
  | ServiceError
  | TypeError
  | AttributeError.

Inductive result (A : Type) : Type :=
  | Ok (a : A)
  | Raise (e : exn).

Arguments Ok {A} a.
Arguments Raise {A} e.

(** ** extract_lean_code *)

Module Extract.
Import Py Re.

Definition marker : str :=
  of_string "### Complete Lean 4 Proof" ++ [nl; nl].

Definition fence_lean4 : str := of_string "```lean4".
Definition fence_lean : str := of_string "```lean".
Definition fence : str := of_string "```".

(** Lines 11-14: the last element of a list, the empty text for the empty
    list, and [str(response)] otherwise. *)
Definition response_text (response : value) : value :=
  match response with
  | VList l => last l (VStr [])
  | VStr s => VStr s
  | VOther repr => VStr repr
  end.

(** [parts.split(fence)[0].strip()]: the text up to the next fence. *)
Definition up_to_fence (s : str) : str :=
  strip (hd [] (split fence s)).

(** Lines 19-24: the block after the last marker. *)
Definition after_marker_code (text : str) : str :=
  if contains marker text then
    let after_marker := last (rsplit1 marker text) [] in
    if startswith fence_lean4 (lstrip after_marker) then
      let parts := split1 fence_lean4 (lstrip after_marker) in
      if 1 <? length parts then up_to_fence (nth 1 parts []) else []
    else []
  else [].

(** Lines 26-34: the last block of the text. *)
Definition last_fence_code (text : str) : str :=
  if contains fence_lean4 text then
    let parts := split fence_lean4 text in
    if 1 <? length parts then up_to_fence (last parts []) else []
  else if contains fence_lean text then
    let parts := split fence_lean text in
    if 1 <? length parts then up_to_fence (last parts []) else []
  else [].

(** Lines 16-34: [extracted_code] when line 36 is reached. *)
Definition extracted_code (text : value) : str :=
  match text with
  | VStr t =>
      match after_marker_code t with
      | [] => last_fence_code t
      | code => code
      end
  | _ => []
  end.

(** Lines 39-60, for a non-empty [extracted_code]. *)
Definition splice (code header : str) : result str :=
  match search proof_body_pattern code with
  | None => Ok (strip header)
  | Some (group1, _) =>
      let proof_body := strip group1 in
      let matches := finditer sorry_pattern header in
      let num_match := length matches in
      let new_code :=
        match rev matches with
        | (start, end_) :: _ =>
            firstn start header ++ of_string ":= " ++ proof_body
              ++ skipn end_ header
        | [] => header
        end in
      if Nat.eqb num_match 1 then Ok (strip new_code)
      else Raise ValueError
  end.

(** Lines 16-60: what the function does with the text it has selected. *)
Definition scan (text : value) (header : str) : result str :=
  match extracted_code text with
  | [] => Ok []
  | code => splice code header
  end.

Definition extract_lean_code (response : value) (header : str) : result str :=
  scan (response_text response) header.

(** Lines 9-60 when the skeleton is any value: [process_jsonl_file] passes
    [entry.get('formal_statement', '')] as it is read.  A skeleton that is
    not a text is touched for the first time at line 41, where it has no
    [strip] (AttributeError), or at line 48, where the compiled pattern
    cannot search it (TypeError); before that the function goes as for a
    text. *)
Definition extract_lean_code_any (response header : value) : result str :=
  match header with
  | VStr h => extract_lean_code response h
  | _ =>
      match extracted_code (response_text response) with
      | [] => Ok []
      | code =>
          match search proof_body_pattern code with
          | None => Raise AttributeError
          | Some _ => Raise TypeError
          end
      end
  end.

End Extract.

(** ** The verifier's answers and format_error_check *)

Module Verifier.
Import Py.

(** An error or a warning of Lean; each field is the text the f-string of
    [format_error_check] shows for it: the line and the column of [pos]
    (or [u]) and [data] (or the text of the whole message). *)
Record message : Type := {
  msg_line : str;
  msg_column : str;
  msg_data : str
}.

(** What [get_all_request_outputs] gives for one request.  A missing key
    reads as its default; [system_errors] is [None] for null; a sorry is
    kept as the text [repr] gives. *)
Record output : Type := {
  out_system_errors : option str;
  out_complete : bool;
  out_pass : bool;
  out_errors : list message;
  out_warnings : list message;
  out_sorries : list str;
  out_verify_time : Q
}.

Inductive status : Type :=
  | NO_CODE_FOUND
  | SYSTEM_ERROR
  | COMPLETE
  | PASS_WITH_ISSUES
  | FAIL.

(** The truth value of [output.get('system_errors')]. *)
Definition has_system_errors (o : output) : bool :=
  match out_system_errors o with
  | Some (_ :: _) => true
  | _ => false
  end.

(** Lines 164-167. *)
Definition classify (o : output) : status :=
  if has_system_errors o then SYSTEM_ERROR
  else if out_complete o then COMPLETE
  else if out_pass o then PASS_WITH_ISSUES
  else FAIL.

Definition decimal (n : nat) : str :=
  of_string (NilZero.string_of_uint (Nat.to_uint n)).

(** [sep.join(parts)] *)
Fixpoint join (sep : str) (parts : list str) : str :=
  match parts with
  | [] => []
  | [p] => p
  | p :: rest => p ++ sep ++ join sep rest
  end.

(** The details of lines 79 and 83, numbered from [i + 1]. *)
Fixpoint details (label : str) (i : nat) (ms : list message) : list str :=
  match ms with
  | [] => []
  | m :: rest =>
      (label ++ of_string " " ++ decimal (i + 1) ++ of_string " (line "
         ++ msg_line m ++ of_string ", col " ++ msg_column m
         ++ of_string "): " ++ msg_data m)
      :: details label (S i) rest
  end.

Definition no_code_text : str :=
  of_string "NO_CODE_FOUND: No Lean code extracted from response".

Definition format_error_check (o : output) (st : status) : str :=
  match st with
  | NO_CODE_FOUND => no_code_text
  | _ =>
      let system_errors :=
        match out_system_errors o with Some t => t | None => [] end in
      let error_parts :=
        (match system_errors with
         | [] => []
         | _ => [of_string "SYSTEM_ERRORS: " ++ system_errors]
         end)
        ++ (match out_errors o with
            | [] => []
            | errors =>
                [of_string "LEAN_ERRORS:" ++ [nl]
                   ++ join [nl] (details (of_string "Error") 0 errors)]
            end)
        ++ (match out_warnings o with
            | [] => []
            | warnings =>
                [of_string "WARNINGS:" ++ [nl]
                   ++ join [nl] (details (of_string "Warning") 0 warnings)]
            end)
        ++ (match out_sorries o with
            | [] => []
            | sorries =>
                [of_string "SORRIES: " ++ decimal (length sorries)
                   ++ of_string " sorry statements found: ["
                   ++ join (of_string ", ") sorries ++ of_string "]"]
            end) in
      match error_parts with
      | [] =>
          match st with
          | COMPLETE => of_string "SUCCESS: Proof verified successfully"
          | PASS_WITH_ISSUES =>
              of_string
                "PASS_WITH_ISSUES: Code compiles but may have minor issues"
          | _ =>
              of_string
                "UNKNOWN: No specific errors found but verification failed"
          end
      | _ => join [nl; nl] error_parts
      end
  end.

End Verifier.

(** ** process_jsonl_file *)

Module Batch.
Import Py Verifier.

(** An object read from a line: the three keys the program reads,
    [formal_statement] and [response] with the defaults of [entry.get].
    The skeleton is taken to be a text, as the files the program is run
    on have it; what line 132 does with a skeleton of another kind is
    [Extract.extract_lean_code_any]. *)
Record entry : Type := {
  entry_idx : option value;
  entry_formal_statement : str;
  entry_response : value
}.

(** A line of the input as [json.loads] reads it: [None] when it raises
    [JSONDecodeError], and an object otherwise.  A line that is JSON and
    not an object (a number, a text, a list) is outside this type: for it
    line 130 raises AttributeError, [entry.get] being undefined. *)
Definition line := option entry.

(** The argument of [submit_request]. *)
Record request : Type := {
  req_code : str;
  req_ast : bool;
  req_tactics : bool;
  req_lean_workspace : str
}.

(** The [Lean4ServerScheduler] of [lean.verifier], which is not part of
    this file: a state and the two calls the program makes on it, each of
    which may raise. *)
Record scheduler : Type := {
  handle : Type;
  sched_state : Type;
  submit_request :
    sched_state -> request -> result handle * sched_state;
  get_all_request_outputs :
    sched_state -> list handle -> result (list output) * sched_state
}.

(** The calls made on the scheduler, in the order they are made; [Close]
    is [lean4_scheduler.close()]. *)
Inductive event : Type :=
  | Submit (code : str)
  | GetAll (n : nat)
  | Close.

Definition is_close (ev : event) : bool :=
  match ev with Close => true | _ => false end.

(** How often the scheduler was closed. *)
Definition closes (tr : list event) : nat := length (filter is_close tr).

Record result_record : Type := {
  idx : value;
  formal_statement : str;
  response : value;
  verified_lean_code : str;
  verification_pass : bool;
  verification_complete : bool;
  verification_status : status;
  errors : nat;
  warnings : nat;
  sorries : nat;
  verify_time : Q;
  error_check : str;
  full_verifier_output : option output
}.

(** [entry.get('idx', i)]; the position is a number, kept as its text. *)
Definition idx_of (e : entry) (i : nat) : value :=
  match entry_idx e with
  | Some v => v
  | None => VOther (decimal i)
  end.

(** Lines 146-152. *)
Definition no_code_record (e : entry) (i : nat) : result_record :=
  {| idx := idx_of e i;
     formal_statement := entry_formal_statement e;
     response := entry_response e;
     verified_lean_code := [];
     verification_pass := false;
     verification_complete := false;
     verification_status := NO_CODE_FOUND;
     errors := 0; warnings := 0; sorries := 0;
     verify_time := 0%Q;
     error_check := no_code_text;
     full_verifier_output := None |}.

(** Lines 164-183. *)
Definition verified_record (e : entry) (i : nat) (lean_code : str)
    (o : output) : result_record :=
  let st := classify o in
  {| idx := idx_of e i;
     formal_statement := entry_formal_statement e;
     response := entry_response e;
     verified_lean_code := lean_code;
     verification_pass := out_pass o;
     verification_complete := out_complete o;
     verification_status := st;
     errors := length (out_errors o);
     warnings := length (out_warnings o);
     sorries := length (out_sorries o);
     verify_time := out_verify_time o;
     error_check := format_error_check o st;
     full_verifier_output := Some o |}.

(** [lines[:max_entries] if max_entries else lines] *)
Definition take_lines (max_entries : option Z) (lines : list line)
  : list line :=
  match max_entries with
  | None => lines
  | Some n =>
      if (n =? 0)%Z then lines
      else if (0 <? n)%Z then firstn (Z.to_nat n) lines
      else firstn (Z.to_nat (Z.of_nat (length lines) + n)) lines
  end.

Section WithScheduler.

Variable sch : scheduler.

(** The state of the scheduler and the calls made on it so far. *)
Definition world : Type := (sched_state sch * list event)%type.

(** A computation that may raise and that acts on the scheduler. *)
Definition M (A : Type) : Type := world -> result A * world.

Definition ret {A} (a : A) : M A := fun w => (Ok a, w).

Definition bind {A B} (m : M A) (k : A -> M B) : M B :=
  fun w =>
    match m w with
    | (Ok a, w') => k a w'
    | (Raise e, w') => (Raise e, w')
    end.

Definition lift {A} (r : result A) : M A := fun w => (r, w).

(** [try: body finally: handler] *)
Definition try_finally {A} (body : M A) (handler : M unit) : M A :=
  fun w =>
    match body w with
    | (r, w') =>
        match handler w' with
        | (Ok _, w'') => (r, w'')
        | (Raise e, w'') => (Raise e, w'')
        end
    end.

Notation "x <- m ;; k" := (bind m (fun x => k))
  (at level 61, m at next level, right associativity).

Definition submit (rq : request) : M (handle sch) :=
  fun w =>
    match submit_request sch (fst w) rq with
    | (r, s') => (r, (s', snd w ++ [Submit (req_code rq)]))
    end.

Definition get_all (ids : list (handle sch)) : M (list output) :=
  fun w =>
    match get_all_request_outputs sch (fst w) ids with
    | (r, s') => (r, (s', snd w ++ [GetAll (length ids)]))
    end.

Definition close : M unit :=
  fun w => (Ok tt, (fst w, snd w ++ [Close])).

(** The three lists the first loop fills. *)
Record pending : Type := {
  request_ids : list (handle sch * nat * str);
  entries : list entry;
  results : list result_record
}.

(** Lines 123-152, from line number [i] on. *)
Fixpoint submit_loop (lean_workspace : str) (i : nat) (lines : list line)
    (p : pending) : M pending :=
  match lines with
  | [] => ret p
  | None :: rest => submit_loop lean_workspace (S i) rest p
  | Some e :: rest =>
      let entries' := entries p ++ [e] in
      lean_code <- lift (Extract.extract_lean_code
                           (entry_response e) (entry_formal_statement e)) ;;
      match strip lean_code with
      | _ :: _ =>
          request_id <- submit {| req_code := lean_code; req_ast := false;
                                  req_tactics := true;
                                  req_lean_workspace := lean_workspace |} ;;
          submit_loop lean_workspace (S i) rest
            {| request_ids := request_ids p ++ [(request_id, i, lean_code)];
               entries := entries';
               results := results p |}
      | [] =>
          submit_loop lean_workspace (S i) rest
            {| request_ids := request_ids p;
               entries := entries';
               results := results p ++ [no_code_record e i] |}
      end
  end.

(** Lines 157-183. *)
Fixpoint collect_loop (entries : list entry)
    (pairs : list ((handle sch * nat * str) * output))
    (results : list result_record) : result (list result_record) :=
  match pairs with
  | [] => Ok results
  | ((_, i, lean_code), o) :: rest =>
      match nth_error entries i with
      | None => Raise IndexError
      | Some e =>
          collect_loop entries rest
            (results ++ [verified_record e i lean_code o])
      end
  end.

(** Lines 114-183, the body of [try]. *)
Definition body (file : option (list line)) (max_entries : option Z)
    (lean_workspace : str) : M (list result_record) :=
  lines <- lift (match file with
                 | Some ls => Ok ls
                 | None => Raise OSError
                 end) ;;
  p <- submit_loop lean_workspace 0 (take_lines max_entries lines)
         {| request_ids := []; entries := []; results := [] |} ;;
  match request_ids p with
  | [] => ret (results p)
  | ids =>
      outputs <- get_all (map (fun r => fst (fst r)) ids) ;;
      lift (collect_loop (entries p) (combine ids outputs) (results p))
  end.

(** Lines 96-185 and the value line 203 returns.  [workspace_exists] is
    [os.path.exists(lean_workspace)], [file] the lines of [file_path]
    ([None] when it cannot be read) and [s0] the scheduler line 104
    makes.  The result is [results] as the [try] statement leaves it, or
    the exception that leaves it, together with the calls made on the
    scheduler.  Lines 187-201, the summary that pandas prints and the
    writing of the results file, are not modelled: they do not change
    [results], and they may raise before line 203 is reached (a record
    that cannot be written, a file that cannot be opened). *)
Definition process_jsonl_file (workspace_exists : bool)
    (file : option (list line)) (max_entries : option Z)
    (lean_workspace : str) (s0 : sched_state sch)
  : result (list result_record) * list event :=
  if workspace_exists then
    match try_finally (body file max_entries lean_workspace) close (s0, [])
    with
    | (r, w) => (r, snd w)
    end
  else (Ok [], []).

End WithScheduler.

End Batch.

(** ** The notions of the specification *)

Module Spec.
Import Py.

Definition assign : str := of_string ":=".
Definition sorry : str := of_string "sorry".
Definition colon : char := 58%N.

(** The placeholder pattern begins the text: the assignment operator,
    white space if any, and the incomplete-proof token. *)
Definition placeholder_here (s : str) : bool :=
  startswith assign s && startswith sorry (lstrip (skipn 2 s)).

(** The number of places of a skeleton where the placeholder pattern
    occurs. *)
Fixpoint count_placeholders (s : str) : nat :=
  (if placeholder_here s then 1 else 0)
  + match s with
    | [] => 0
    | _ :: s' => count_placeholders s'
    end.

(** [sep] occurs somewhere in the text. *)
Definition occurs (sep s : str) : Prop :=
  exists pre post, s = pre ++ sep ++ post.

(** The last occurrence of [sep] in [s] stands between [b] and [a]: no
    occurrence begins further to the right. *)
Definition last_occurrence (sep s b a : str) : Prop :=
  s = b ++ sep ++ a /\ ~ occurs sep (tl (sep ++ a)).

(** No occurrence of [sep] can begin inside another one. *)
Definition no_overlap (sep : str) : Prop :=
  forall u t a,
    sep = u ++ t -> u <> [] -> t <> [] -> startswith sep (t ++ a) = false.

(** A test for [no_overlap]: no proper suffix of [sep] begins [sep]. *)
Definition no_overlapb (sep : str) : bool :=
  forallb (fun k => negb (startswith (skipn k sep) sep))
          (seq 1 (length sep - 1)).

(** The text has an assignment operator somewhere. *)
Definition has_assign (s : str) : Prop := occurs assign s.

Definition backtick : char := 96%N.

(** The excerpt that begins at [a], just after a fence-open: everything up
    to the next fence-close, trimmed. *)
Definition excerpt (a : str) : str :=
  strip (match find Extract.fence a with Some (b, _) => b | None => a end).

(** Rule (i): the text after the last marker opens, after white space, a
    strict-dialect fence, whose excerpt is [code]. *)
Definition marker_rule (t code : str) : Prop :=
  exists b a,
    last_occurrence Extract.marker t b a
    /\ startswith Extract.fence_lean4 (lstrip a) = true
    /\ code = excerpt (skipn (length Extract.fence_lean4) (lstrip a)).

(** Rule (ii): [code] is the excerpt of the last strict-dialect fence. *)
Definition strict_rule (t code : str) : Prop :=
  exists b a, last_occurrence Extract.fence_lean4 t b a /\ code = excerpt a.

(** Rule (iii): [code] is the excerpt of the last loose-dialect fence. *)
Definition loose_rule (t code : str) : Prop :=
  exists b a, last_occurrence Extract.fence_lean t b a /\ code = excerpt a.

(** The outcome carries an infrastructure-error text. *)
Definition error_text_present (o : Verifier.output) : Prop :=
  exists t, Verifier.out_system_errors o = Some t /\ t <> [].

(** The order of preference among the three rules, read as: the first
    rule that applies gives the excerpt, whatever that excerpt is. *)
Definition first_applicable (t code : str) : Prop :=
  marker_rule t code
  \/ ((forall c, ~ marker_rule t c) /\ strict_rule t code)
  \/ ((forall c, ~ marker_rule t c) /\ (forall c, ~ strict_rule t c)
      /\ loose_rule t code).

(** The order of preference, read as: the first rule whose excerpt is not
    empty gives the excerpt. *)
Definition first_nonempty (t code : str) : Prop :=
  code <> []
  /\ (marker_rule t code
      \/ ((forall c, marker_rule t c -> c = []) /\ strict_rule t code)
      \/ ((forall c, marker_rule t c -> c = [])
          /\ (forall c, strict_rule t c -> c = [])
          /\ loose_rule t code)).

(** The last turn of a sequence that is not the empty text. *)
Definition last_nonempty_turn (turns : list value) : value :=
  last (filter (fun t => match t with VStr [] => false | _ => true end)
               turns)
       (VStr []).

End Spec.

(** ** What a batch is expected to give *)

Module BatchSpec.
Import Py Verifier Batch.

(** The unit extracted for an entry (empty when extraction raises). *)
Definition code_of (e : entry) : str :=
  match Extract.extract_lean_code (entry_response e)
          (entry_formal_statement e) with
  | Ok c => c
  | Raise _ => []
  end.

Definition has_code (e : entry) : bool :=
  match strip (code_of e) with
  | [] => false
  | _ :: _ => true
  end.

(** Extraction is not fatal for the entry. *)
Definition extracts (e : entry) : Prop :=
  exists c,
    Extract.extract_lean_code (entry_response e) (entry_formal_statement e)
    = Ok c.

(** The entries with their positions in the input, from [i] on. *)
Fixpoint numbered (i : nat) (es : list entry) : list (nat * entry) :=
  match es with
  | [] => []
  | e :: rest => (i, e) :: numbered (S i) rest
  end.

Definition with_code (ies : list (nat * entry)) : list (nat * entry) :=
  filter (fun ie => has_code (snd ie)) ies.

Definition without_code (ies : list (nat * entry)) : list (nat * entry) :=
  filter (fun ie => negb (has_code (snd ie))) ies.

(** What a record says about the entry it belongs to. *)
Definition entry_part (r : result_record) : value * str * value :=
  (idx r, formal_statement r, response r).

(** The records are about the entries of the input, one for each and in
    the same order. *)
Definition same_order (es : list entry) (rs : list result_record) : Prop :=
  map entry_part rs
  = map (fun ie => (idx_of (snd ie) (fst ie),
                    entry_formal_statement (snd ie),
                    entry_response (snd ie)))
        (numbered 0 es).

Definition request_of (lean_workspace : str) (ie : nat * entry) : request :=
  {| req_code := code_of (snd ie); req_ast := false; req_tactics := true;
     req_lean_workspace := lean_workspace |}.

Section WithScheduler.

Variable sch : scheduler.

(** The handles the scheduler gives for a sequence of requests, and its
    state after them. *)
Fixpoint issue (s : sched_state sch) (rqs : list request)
  : list (handle sch) * sched_state sch :=
  match rqs with
  | [] => ([], s)
  | rq :: rest =>
      match submit_request sch s rq with
      | (Ok h, s') =>
          let (hs, s'') := issue s' rest in (h :: hs, s'')
      | (Raise _, s') => ([], s')
      end
  end.

(** What the first loop keeps for a submitted entry. *)
Definition to_id (ieh : (nat * entry) * handle sch)
  : handle sch * nat * str :=
  (snd ieh, fst (fst ieh), code_of (snd (fst ieh))).

(** The scheduler answers every call: a submission gives a handle, and
    waiting for handles gives, for each of them in turn, the outcome
    [outcome_of] of its job. *)
Definition answers (outcome_of : sched_state sch -> handle sch -> output)
  : Prop :=
  (forall s rq, exists h s', submit_request sch s rq = (Ok h, s'))
  /\ (forall s ids,
        exists s',
          get_all_request_outputs sch s ids
          = (Ok (map (outcome_of s) ids), s')).

(** The records of the entries without code, in the order of the input,
    and then the records of the entries with code, in the order of the
    input, each with the outcome of the handle issued for it. *)
Definition expected_results
    (outcome_of : sched_state sch -> handle sch -> output)
    (lean_workspace : str) (s0 : sched_state sch) (es : list entry)
  : list result_record :=
  let ies := numbered 0 es in
  let (hs, s1) := issue s0 (map (request_of lean_workspace) (with_code ies)) in
  map (fun ie => no_code_record (snd ie) (fst ie)) (without_code ies)
  ++ map (fun ieh =>
            verified_record (snd (fst ieh)) (fst (fst ieh))
              (code_of (snd (fst ieh))) (outcome_of s1 (snd ieh)))
         (combine (with_code ies) hs).

End WithScheduler.

End BatchSpec.

(** ** Sample data *)

Module Sample.
Import Py Verifier Batch.

Definition proof_exact_h : str := of_string "theorem t : P := by exact h".
Definition skeleton_by_sorry : str := of_string "theorem t : P := by sorry".
Definition skeleton_sorry : str := of_string "theorem t : P := sorry".
Definition skeleton_two : str :=
  of_string "theorem t : P := sorry theorem u : Q := sorry".

(** A strict-dialect block that holds [proof_exact_h]. *)
Definition block : str :=
  Extract.fence_lean4 ++ [nl] ++ proof_exact_h ++ [nl] ++ Extract.fence.

(** A strict-dialect block without an assignment operator, and a
    skeleton with white space around it. *)
Definition block_without_assign : str :=
  Extract.fence_lean4 ++ [nl] ++ of_string "exact h" ++ [nl] ++ Extract.fence.

Definition skeleton_padded : str :=
  of_string "  theorem t : P := sorry" ++ [nl].

(** A loose-dialect block, and a response with the section marker, the
    block behind it and a later strict-dialect block. *)
Definition loose_block : str :=
  Extract.fence_lean ++ [nl] ++ of_string "exact h" ++ [nl] ++ Extract.fence.

Definition marked_response : str :=
  of_string "Here is the proof." ++ [nl] ++ Extract.marker ++ block ++ [nl]
    ++ Extract.fence_lean4 ++ [nl] ++ of_string "theorem u : Q := by simp"
    ++ [nl] ++ Extract.fence.

Definition no_proof_text : str := of_string "I could not find a proof.".

(** The section marker with an empty strict-dialect block behind it and a
    later strict-dialect block; and an empty strict-dialect block followed
    by a loose-dialect block. *)
Definition empty_marked_then_block : str :=
  Extract.marker ++ Extract.fence_lean4 ++ [nl] ++ Extract.fence ++ [nl]
    ++ block.

Definition empty_strict_then_loose : str :=
  Extract.fence_lean4 ++ [nl] ++ Extract.fence ++ [nl] ++ loose_block.

(** An outcome that is complete and yet carries an infrastructure error. *)
Definition crashed_complete : output :=
  {| out_system_errors := Some (of_string "Lean process timed out");
     out_complete := true; out_pass := true;
     out_errors := []; out_warnings := []; out_sorries := [];
     out_verify_time := 300%Q |}.

(** A complete outcome that took [k] seconds; and a scheduler that
    numbers its requests and answers each handle with the outcome that
    took as many seconds as the handle says. *)
Definition complete_after (k : nat) : output :=
  {| out_system_errors := None; out_complete := true; out_pass := true;
     out_errors := []; out_warnings := []; out_sorries := [];
     out_verify_time := inject_Z (Z.of_nat k) |}.

Definition counting : scheduler :=
  {| handle := nat;
     sched_state := nat;
     submit_request := fun s _ => (Ok s, S s);
     get_all_request_outputs :=
       fun s ids => (Ok (map complete_after ids), s) |}.

(** A scheduler that keeps its jobs and completes them in the reverse
    order of their submission: the outcome of a job tells, as its time,
    the rank at which the job was completed. *)
Fixpoint rank_of (h : nat) (completed : list nat) : option nat :=
  match completed with
  | [] => None
  | h' :: rest =>
      if Nat.eqb h h' then Some 0
      else match rank_of h rest with
           | Some k => Some (S k)
           | None => None
           end
  end.

Definition outcome_at_rank (jobs : list nat) (h : nat) : output :=
  match rank_of h (rev jobs) with
  | Some k => complete_after k
  | None =>
      {| out_system_errors := Some (of_string "unknown request");
         out_complete := false; out_pass := false;
         out_errors := []; out_warnings := []; out_sorries := [];
         out_verify_time := 0%Q |}
  end.

Definition reversing : scheduler :=
  {| handle := nat;
     sched_state := list nat;
     submit_request := fun jobs _ => (Ok (length jobs), jobs ++ [length jobs]);
     get_all_request_outputs :=
       fun jobs ids => (Ok (map (outcome_at_rank jobs) ids), jobs) |}.

(** A scheduler whose calls all raise. *)
Definition failing : scheduler :=
  {| handle := nat;
     sched_state := unit;
     submit_request := fun s _ => (Raise ServiceError, s);
     get_all_request_outputs := fun s _ => (Raise ServiceError, s) |}.

Definition entry_with_code : entry :=
  {| entry_idx := None;
     entry_formal_statement := skeleton_sorry;
     entry_response := VStr block |}.

Definition entry_without_code : entry :=
  {| entry_idx := None;
     entry_formal_statement := skeleton_sorry;
     entry_response := VStr no_proof_text |}.

Definition proof_simp : str := of_string "theorem u : Q := by simp".

Definition second_entry_with_code : entry :=
  {| entry_idx := None;
     entry_formal_statement := of_string "theorem u : Q := sorry";
     entry_response :=
       VList [VStr no_proof_text;
              VStr (Extract.fence_lean4 ++ [nl] ++ proof_simp ++ [nl]
                      ++ Extract.fence)] |}.


Definition workspace : str := of_string "/dev/shm/mathlib4".

End Sample.

(** ** The name of the results file *)

Module Output.
Import Py.

Definition slash : str := of_string "/".
Definition dot_jsonl : str := of_string ".jsonl".
Definition results_suffix : str := of_string "_verification_results.jsonl".

(** [os.path.basename(p)] of [posixpath]: what follows the last slash. *)
Definition basename (p : str) : str :=
  match rfind slash p with
  | Some (_, a) => a
  | None => p
  end.

(** [s.replace(old, new)] for a non-empty [old]: the pieces between the
    occurrences of [old], found from the left, joined by [new]. *)
Definition replace (old new s : str) : str :=
  Verifier.join new (split old s).

(** Line 196. *)
Definition output_file (file_path : str) : str :=
  replace dot_jsonl results_suffix (basename file_path).

End Output.

(** ** Further notions *)

Module Notions.
Import Py Verifier Batch.

(** The text neither begins nor ends with white space. *)
Definition trimmed (s : str) : Prop :=
  (forall c r, s = c :: r -> is_space c = false)
  /\ (forall r c, s = r ++ [c] -> is_space c = false).

(** The first occurrence of [sep] in [s] stands between [b] and [a]: no
    occurrence begins further to the left. *)
Definition first_occurrence (sep s b a : str) : Prop :=
  s = b ++ sep ++ a /\ ~ Spec.occurs sep (removelast (b ++ sep)).

(** The outcome gives [format_error_check] nothing to report. *)
Definition clean (o : output) : Prop :=
  has_system_errors o = false
  /\ out_errors o = [] /\ out_warnings o = [] /\ out_sorries o = [].

Definition success_text : str :=
  of_string "SUCCESS: Proof verified successfully".
Definition issues_text : str :=
  of_string "PASS_WITH_ISSUES: Code compiles but may have minor issues".
Definition unknown_text : str :=
  of_string "UNKNOWN: No specific errors found but verification failed".

(** The record of an entry for which no code was found. *)
Definition is_no_code (r : result_record) : Prop :=
  verification_status r = NO_CODE_FOUND
  /\ full_verifier_output r = None
  /\ verified_lean_code r = []
  /\ verification_pass r = false /\ verification_complete r = false
  /\ verify_time r = 0%Q.


(** The entries of the lines that parse. *)
Fixpoint parsed (lines : list line) : list entry :=
  match lines with
  | [] => []
  | Some e :: rest => e :: parsed rest
  | None :: rest => parsed rest
  end.

(** The entries of the lines that parse, each with the number of its
    line, from line [i] on. *)
Fixpoint numbered_lines (i : nat) (lines : list line) : list (nat * entry) :=
  match lines with
  | [] => []
  | Some e :: rest => (i, e) :: numbered_lines (S i) rest
  | None :: rest => numbered_lines (S i) rest
  end.

(** The codes extracted from the lines, for the entries that have one, in
    the order of the lines. *)
Definition codes_of (lines : list line) : list str :=
  map (fun ie => BatchSpec.code_of (snd ie))
      (BatchSpec.with_code (numbered_lines 0 lines)).

(** The calls of a run that gets through the first loop having submitted
    [codes]: the submissions, one wait if there was a submission, and the
    closing. *)
Definition calls_of (codes : list str) : list event :=
  map Submit codes
  ++ match codes with
     | [] => [Close]
     | _ :: _ => [GetAll (length codes); Close]
     end.

(** A code that is not empty and is trimmed. *)
Definition good_code (c : str) : Prop := c <> [] /\ strip c = c.

(** The codes of the submissions of a trace. *)
Fixpoint submitted (tr : list event) : list str :=
  match tr with
  | [] => []
  | Submit c :: rest => c :: submitted rest
  | _ :: rest => submitted rest
  end.

End Notions.

(** * Properties *)

(** ** Texts: prefixes and occurrences *)

Module PyFacts.
Import Py.

Lemma char_eqb_eq (a b : char) : char_eqb a b = true <-> a = b.
Proof. unfold char_eqb. apply N.eqb_eq. Qed.

Lemma char_eqb_refl (a : char) : char_eqb a a = true.
Proof. apply char_eqb_eq. reflexivity. Qed.

Lemma startswith_app (p r : str) : startswith p (p ++ r) = true.
Proof.
  induction p as [|x p IH]; simpl; [reflexivity|].
  now rewrite char_eqb_refl.
Qed.

Lemma startswith_skipn (p s : str) :
  startswith p s = true -> s = p ++ skipn (length p) s.
Proof.
  revert s. induction p as [|x p IH]; intros s H; simpl in *.
  - reflexivity.
  - destruct s as [|y s]; [discriminate|].
    apply andb_true_iff in H. destruct H as [Hxy Hp].
    apply char_eqb_eq in Hxy. subst y. simpl. f_equal. now apply IH.
Qed.

Lemma startswith_iff (p s : str) :
  startswith p s = true <-> exists r, s = p ++ r.
Proof.
  split.
  - intro H. eexists. now apply startswith_skipn.
  - intros [r ->]. apply startswith_app.
Qed.

Lemma skipn_length_app (p r : str) : skipn (length p) (p ++ r) = r.
Proof. induction p; simpl; auto. Qed.

(** [find] cuts the text at an occurrence. *)
Lemma find_some (sep s b a : str) :
  find sep s = Some (b, a) -> s = b ++ sep ++ a.
Proof.
  revert b a. induction s as [|c s IH]; intros b a H.
  - simpl in H. destruct (startswith sep []) eqn:E; [|discriminate].
    inversion H; subst. simpl. now apply startswith_skipn.
  - simpl in H. destruct (startswith sep (c :: s)) eqn:E.
    + inversion H; subst. simpl. now apply startswith_skipn.
    + destruct (find sep s) as [[b' a']|] eqn:F; [|discriminate].
      inversion H; subst. simpl. f_equal. now apply IH.
Qed.

Lemma find_eq (sep s : str) :
  find sep s =
  if startswith sep s then Some ([], skipn (length sep) s)
  else match s with
       | [] => None
       | c :: s' =>
           match find sep s' with
           | Some (b, a) => Some (c :: b, a)
           | None => None
           end
       end.
Proof. destruct s; reflexivity. Qed.

(** A text that holds [sep] has a first occurrence of it. *)
Lemma find_none_app (sep pre post : str) :
  find sep (pre ++ sep ++ post) <> None.
Proof.
  induction pre as [|c pre IH]; rewrite find_eq.
  - simpl. rewrite startswith_app. discriminate.
  - destruct (startswith sep ((c :: pre) ++ sep ++ post)); [discriminate|].
    simpl. destruct (find sep (pre ++ sep ++ post)) as [[b a]|];
      [discriminate|]. exact IH.
Qed.

Lemma contains_iff (sep s : str) :
  contains sep s = true <-> exists pre post, s = pre ++ sep ++ post.
Proof.
  unfold contains. split.
  - destruct (find sep s) as [[b a]|] eqn:F; [|discriminate].
    intros _. exists b, a. now apply find_some.
  - intros (pre & post & ->).
    destruct (find sep (pre ++ sep ++ post)) as [[b a]|] eqn:F;
      [reflexivity|]. now apply find_none_app in F.
Qed.

Lemma contains_false_iff (sep s : str) :
  contains sep s = false <-> ~ exists pre post, s = pre ++ sep ++ post.
Proof.
  rewrite <- contains_iff. destruct (contains sep s); split; intro H;
    try reflexivity; try discriminate; try (intro; discriminate).
  exfalso. now apply H.
Qed.

End PyFacts.

(** ** The patterns *)

Module ReFacts.
Import Py Re PyFacts Spec.

Lemma match_lits_app (p : str) (q : pattern) (s : str) :
  match_here (lits p ++ q) s =
  if startswith p s then match_here q (skipn (length p) s) else None.
Proof.
  revert s. induction p as [|c p IH]; intro s.
  - reflexivity.
  - destruct s as [|x s]; [reflexivity|].
    cbn [lits map app match_here startswith length skipn].
    destruct (char_eqb x c) eqn:E.
    + replace (char_eqb c x) with true
        by (symmetry; apply char_eqb_eq; apply char_eqb_eq in E; auto).
      apply IH.
    + replace (char_eqb c x) with false; [reflexivity|].
      symmetry. destruct (char_eqb c x) eqn:E'; [|reflexivity].
      apply char_eqb_eq in E'. subst. now rewrite char_eqb_refl in E.
Qed.

Lemma match_lits (p s : str) :
  match_here (lits p) s =
  if startswith p s then Some ([], skipn (length p) s) else None.
Proof.
  rewrite <- (app_nil_r (lits p)), match_lits_app. reflexivity.
Qed.

Lemma star_match_eq cls group rest (s : str) :
  star_match cls group rest s =
  let stop :=
    match rest s with
    | Some (g, r) => Some (if group then [] else g, r)
    | None => None
    end in
  match s with
  | x :: s' =>
      if cls x then
        match star_match cls group rest s' with
        | Some (g, r) => Some (if group then x :: g else g, r)
        | None => stop
        end
      else stop
  | [] => stop
  end.
Proof. destruct s; reflexivity. Qed.

(** The group of everything takes the whole text. *)
Lemma match_star_any (s : str) : match_here [Star any true] s = Some (s, []).
Proof.
  cbn [match_here]. induction s as [|x s IH]; [reflexivity|].
  rewrite star_match_eq. cbv zeta. cbn [any]. now rewrite IH.
Qed.

(** White space and then the group: the group is the text without its
    leading white space. *)
Lemma match_space_any (s : str) :
  match_here [Star is_space false; Star any true] s = Some (lstrip s, []).
Proof.
  change (star_match is_space false (match_here [Star any true]) s
          = Some (lstrip s, [])).
  induction s as [|x s IH]; [reflexivity|].
  rewrite star_match_eq. cbv zeta. rewrite IH, match_star_any.
  simpl lstrip. destruct (is_space x); reflexivity.
Qed.

(** White space and then a literal text that does not begin with white
    space: the repetition never has to give a character back. *)
Lemma match_space_lits (c : char) (p s : str) :
  is_space c = false ->
  match_here (Star is_space false :: lits (c :: p)) s =
  match_here (lits (c :: p)) (lstrip s).
Proof.
  intro Hc.
  change (star_match is_space false (match_here (lits (c :: p))) s
          = match_here (lits (c :: p)) (lstrip s)).
  induction s as [|x s IH].
  - rewrite star_match_eq. cbv zeta. simpl lstrip.
    destruct (match_here (lits (c :: p)) []) as [[g r]|]; reflexivity.
  - rewrite star_match_eq. cbv zeta. rewrite IH. simpl lstrip.
    destruct (is_space x) eqn:Ex.
    + destruct (match_here (lits (c :: p)) (lstrip s)) as [[g r]|];
        [reflexivity|].
      cbn [lits map match_here].
      destruct (char_eqb x c) eqn:E; [|reflexivity].
      apply char_eqb_eq in E. subst. congruence.
    + destruct (match_here (lits (c :: p)) (x :: s)) as [[g r]|];
        reflexivity.
Qed.

(** The proof-body pattern matches where the text begins with the
    assignment operator; its group is what follows, without the leading
    white space. *)
Lemma match_proof_body (s : str) :
  match_here proof_body_pattern s =
  if startswith assign s then Some (lstrip (skipn 2 s), []) else None.
Proof.
  unfold proof_body_pattern. rewrite match_lits_app.
  fold assign. destruct (startswith assign s); [|reflexivity].
  apply match_space_any.
Qed.

(** [re.search] of the proof-body pattern finds the first assignment
    operator. *)
Lemma search_proof_body (s : str) :
  search proof_body_pattern s =
  match find assign s with
  | Some (_, a) => Some (lstrip a, [])
  | None => None
  end.
Proof.
  induction s as [|c s IH].
  - reflexivity.
  - cbn [search]. rewrite match_proof_body, find_eq.
    destruct (startswith assign (c :: s)); [reflexivity|].
    rewrite IH. destruct (find assign s) as [[b a]|]; reflexivity.
Qed.

(** The placeholder pattern matches exactly where the specification's
    placeholder begins the text. *)
Lemma match_sorry (s : str) :
  match_here sorry_pattern s =
  if placeholder_here s
  then Some ([], skipn 5 (lstrip (skipn 2 s)))
  else None.
Proof.
  unfold sorry_pattern, placeholder_here. rewrite match_lits_app.
  fold assign. destruct (startswith assign s); [|reflexivity].
  cbn [andb app]. change (of_string "sorry") with (115%N :: of_string "orry").
  rewrite match_space_lits by reflexivity.
  rewrite match_lits. reflexivity.
Qed.

End ReFacts.

(** ** Counting the placeholders *)

Module CountFacts.
Import Py Re PyFacts Spec ReFacts.

(** A text is its leading white space followed by [lstrip] of it. *)
Lemma lstrip_split (s : str) :
  exists w, s = w ++ lstrip s /\ Forall (fun c => is_space c = true) w.
Proof.
  induction s as [|c s (w & Hw & Hs)].
  - exists []. split; [reflexivity | constructor].
  - simpl. destruct (is_space c) eqn:E.
    + exists (c :: w). split; [simpl; congruence | now constructor].
    + exists []. split; [reflexivity | constructor].
Qed.

Lemma lstrip_app_spaces (w x : str) :
  Forall (fun c => is_space c = true) w -> lstrip (w ++ x) = lstrip x.
Proof.
  induction 1 as [|c w Hc Hw IH]; [reflexivity|].
  simpl. now rewrite Hc.
Qed.

(** The placeholder begins a text when the text is the assignment
    operator, white space, the token and any rest. *)
Lemma placeholder_here_iff (s : str) :
  placeholder_here s = true <->
  exists w rest,
    s = assign ++ w ++ sorry ++ rest
    /\ Forall (fun c => is_space c = true) w.
Proof.
  unfold placeholder_here. rewrite andb_true_iff. split.
  - intros [Ha Hs]. apply startswith_skipn in Ha, Hs.
    change (length assign) with 2 in Ha.
    destruct (lstrip_split (skipn 2 s)) as (w & Hw & Hsp).
    exists w, (skipn (length sorry) (lstrip (skipn 2 s))).
    split; [|exact Hsp]. rewrite <- Hs, <- Hw. exact Ha.
  - intros (w & rest & -> & Hsp). split; [apply startswith_app|].
    change 2 with (length assign). rewrite skipn_length_app.
    rewrite lstrip_app_spaces by assumption.
    change (lstrip (sorry ++ rest)) with (sorry ++ rest).
    apply startswith_app.
Qed.

(** No placeholder begins at a character other than the colon. *)
Lemma placeholder_here_colon (c : char) (s : str) :
  c <> colon -> placeholder_here (c :: s) = false.
Proof.
  intro H. unfold placeholder_here.
  change assign with [colon; 61%N]. cbn [startswith].
  destruct (char_eqb colon c) eqn:E; [|reflexivity].
  apply char_eqb_eq in E. congruence.
Qed.

(** The shape of a text that begins with the placeholder: after the
    colon come only characters that are not colons, up to the end of the
    match. *)
Lemma placeholder_here_shape (c : char) (s : str) :
  placeholder_here (c :: s) = true ->
  let r := skipn 5 (lstrip (skipn 2 (c :: s))) in
  length r <= length s /\
  Forall (fun x => x <> colon) (firstn (length (c :: s) - length r - 1) s).
Proof.
  unfold placeholder_here. intro H. apply andb_true_iff in H.
  destruct H as [Ha Hs].
  apply startswith_skipn in Ha. apply startswith_skipn in Hs.
  change (length assign) with 2 in Ha. change (length sorry) with 5 in Hs.
  cbv zeta. set (rest := skipn 2 (c :: s)) in *.
  set (r := skipn 5 (lstrip rest)) in *.
  destruct (lstrip_split rest) as (w & Hw & Hsp).
  rewrite Hs in Hw.
  assert (Hs' : s = [61%N] ++ w ++ sorry ++ r).
  { rewrite Hw in Ha. inversion Ha. reflexivity. }
  assert (Hlen : length (c :: s) - length r - 1 = length ([61%N] ++ w ++ sorry)).
  { rewrite Hs'. cbn [length app]. rewrite !length_app.
    change (length sorry) with 5. lia. }
  rewrite Hlen. split.
  { rewrite Hs'. rewrite !length_app. lia. }
  rewrite Hs'.
  rewrite !app_assoc. rewrite firstn_app, firstn_all, Nat.sub_diag.
  simpl firstn. rewrite app_nil_r.
  apply Forall_app. split; [apply Forall_app; split|].
  - repeat constructor. discriminate.
  - eapply Forall_impl; [|exact Hsp].
    intros a Ha' ->. discriminate.
  - repeat constructor; discriminate.
Qed.

(** While [finditer] passes the characters of a match, none of which is a
    colon, it passes no placeholder; so it reports as many matches as there
    are placeholders. *)
Lemma finditer_from_count (s : str) :
  forall skip pos,
    Forall (fun x => x <> colon) (firstn skip s) ->
    length (finditer_from sorry_pattern skip pos s) = count_placeholders s.
Proof.
  induction s as [|c s IH]; intros skip pos Hq.
  - reflexivity.
  - cbn [finditer_from count_placeholders]. destruct skip as [|k].
    + rewrite match_sorry.
      destruct (placeholder_here (c :: s)) eqn:E.
      * cbn [length Nat.add]. f_equal. apply IH.
        destruct (placeholder_here_shape _ _ E) as [_ H]. exact H.
      * apply IH. constructor.
    + simpl firstn in Hq. inversion Hq; subst.
      rewrite placeholder_here_colon by assumption. now apply IH.
Qed.

Lemma finditer_count (s : str) :
  length (finditer sorry_pattern s) = count_placeholders s.
Proof. apply finditer_from_count. constructor. Qed.

End CountFacts.

(** ** The splice *)

Module ExtractFacts.
Import Py Re PyFacts Spec ReFacts CountFacts Extract.

Lemma search_proof_body_none (code : str) :
  ~ has_assign code -> search proof_body_pattern code = None.
Proof.
  intro H. rewrite search_proof_body.
  destruct (find assign code) as [[b a]|] eqn:F; [|reflexivity].
  exfalso. apply H. exists b, a. now apply find_some.
Qed.

Lemma search_proof_body_some (code : str) :
  has_assign code ->
  exists g, search proof_body_pattern code = Some (g, []).
Proof.
  intros (pre & post & ->). rewrite search_proof_body.
  destruct (find assign (pre ++ assign ++ post)) as [[b a]|] eqn:F.
  - eexists. reflexivity.
  - now apply find_none_app in F.
Qed.

(** [splice] without an assignment operator in the excerpt. *)
Lemma splice_without_assign (code header : str) :
  ~ has_assign code -> splice code header = Ok (strip header).
Proof.
  intro H. unfold splice. now rewrite search_proof_body_none.
Qed.

(** [splice] when the placeholders of the skeleton are not exactly one. *)
Lemma splice_ambiguous (code header : str) :
  has_assign code -> count_placeholders header <> 1 ->
  splice code header = Raise ValueError.
Proof.
  intros Ha Hn. unfold splice.
  destruct (search_proof_body_some Ha) as (g & ->).
  rewrite finditer_count.
  destruct (Nat.eqb_spec (count_placeholders header) 1); congruence.
Qed.

End ExtractFacts.

(** ** Cutting a text at its separators *)

Module SplitFacts.
Import Py PyFacts Spec.

Section Separator.

Variable sep : str.
Hypothesis sep_nonempty : sep <> [].

Lemma find_nil : find sep [] = None.
Proof. destruct sep; [congruence | reflexivity]. Qed.

Lemma find_shorter (s b a : str) :
  find sep s = Some (b, a) -> length a < length s.
Proof.
  intro H. apply find_some in H. subst s. rewrite !length_app.
  destruct sep; [congruence | simpl; lia].
Qed.

(** The bound on the number of cuts does not matter once it is at least
    the length of the text. *)
Lemma split_upto_enough (n : nat) :
  forall m s, length s <= n -> length s <= m ->
    split_upto n sep s = split_upto m sep s.
Proof.
  induction n as [|n IH]; intros m s Hn Hm.
  - destruct s; [|simpl in Hn; lia].
    destruct m; cbn [split_upto]; [reflexivity | now rewrite find_nil].
  - destruct m as [|m].
    + destruct s; [|simpl in Hm; lia]. cbn [split_upto].
      now rewrite find_nil.
    + cbn [split_upto]. destruct (find sep s) as [[b a]|] eqn:F; [|reflexivity].
      apply find_shorter in F. f_equal. apply IH; lia.
Qed.

(** [split] cuts at the first occurrence and goes on with what follows. *)
Lemma split_eq (s : str) :
  split sep s =
  match find sep s with
  | None => [s]
  | Some (b, a) => b :: split sep a
  end.
Proof.
  unfold split. destruct s as [|c s].
  - now rewrite find_nil.
  - cbn [length split_upto].
    destruct (find sep (c :: s)) as [[b a]|] eqn:F; [|reflexivity].
    apply find_shorter in F. simpl in F. f_equal.
    apply split_upto_enough; lia.
Qed.

Lemma split_not_nil (s : str) : split sep s <> [].
Proof.
  rewrite split_eq. destruct (find sep s) as [[b a]|]; discriminate.
Qed.

Lemma rfind_eq (s : str) :
  rfind sep s =
  match s with
  | [] => None
  | c :: s' =>
      match rfind sep s' with
      | Some (b, a) => Some (c :: b, a)
      | None =>
          if startswith sep s then Some ([], skipn (length sep) s) else None
      end
  end.
Proof.
  destruct s; [|reflexivity]. simpl. destruct sep; [congruence|reflexivity].
Qed.

Lemma rfind_none_find (s : str) : rfind sep s = None <-> find sep s = None.
Proof.
  induction s as [|c s IH]; rewrite rfind_eq, find_eq.
  - destruct (startswith sep []) eqn:E; [|tauto].
    destruct sep; [congruence | discriminate].
  - destruct (rfind sep s) as [[b a]|], (find sep s) as [[b' a']|],
      (startswith sep (c :: s)); split; intro H;
      try discriminate; try reflexivity.
    + destruct IH as [_ IH]. discriminate IH. reflexivity.
    + destruct IH as [IH _]. discriminate IH. reflexivity.
Qed.

Lemma rfind_none_occurs (s : str) : rfind sep s = None <-> ~ occurs sep s.
Proof.
  rewrite rfind_none_find. unfold occurs. rewrite <- contains_false_iff.
  unfold contains. destruct (find sep s); split; congruence.
Qed.

Lemma rfind_app (x y b a : str) :
  rfind sep y = Some (b, a) -> rfind sep (x ++ y) = Some (x ++ b, a).
Proof.
  intro H. induction x as [|c x IH]; [exact H|].
  simpl app. rewrite rfind_eq, IH. reflexivity.
Qed.

(** [rfind] cuts at the last occurrence, and only there. *)
Lemma rfind_last (s b a : str) :
  rfind sep s = Some (b, a) <-> last_occurrence sep s b a.
Proof.
  unfold last_occurrence. split.
  - revert b a. induction s as [|c s IH]; intros b a H; rewrite rfind_eq in H.
    + discriminate.
    + destruct (rfind sep s) as [[b' a']|] eqn:R.
      * inversion H; subst. destruct (IH _ _ eq_refl) as [-> Hn].
        split; [reflexivity | exact Hn].
      * destruct (startswith sep (c :: s)) eqn:E; [|discriminate].
        inversion H; subst. apply startswith_skipn in E.
        split; [exact E|]. simpl app. rewrite <- E. simpl tl.
        now apply rfind_none_occurs.
  - intros [-> Hn]. rewrite <- (app_nil_r b) at 2. apply rfind_app.
    apply rfind_none_occurs in Hn.
    destruct (sep ++ a) as [|c r] eqn:E.
    + destruct sep; [congruence | discriminate].
    + rewrite rfind_eq. simpl tl in Hn. rewrite Hn, <- E, startswith_app.
      now rewrite skipn_length_app.
Qed.

Hypothesis sep_no_overlap : no_overlap sep.

Lemma rfind_inside (a : str) :
  rfind sep a = None ->
  forall t u, sep = u ++ t -> u <> [] -> rfind sep (t ++ a) = None.
Proof.
  intros Ha t. induction t as [|c t IH]; intros u Hu Hne; [exact Ha|].
  simpl app. rewrite rfind_eq.
  rewrite (IH (u ++ [c])).
  - change (c :: t ++ a) with ((c :: t) ++ a).
    rewrite (sep_no_overlap (u := u) (t := c :: t)); auto. discriminate.
  - rewrite <- app_assoc. exact Hu.
  - destruct u; discriminate.
Qed.

(** Without overlaps, the first occurrence is the last one when none
    follows it. *)
Lemma rfind_single (b a : str) :
  rfind sep a = None -> rfind sep (b ++ sep ++ a) = Some (b, a).
Proof.
  intro Ha. apply rfind_last. split; [reflexivity|].
  apply rfind_none_occurs.
  assert (exists c t, sep = c :: t) as (c & t & E)
    by (destruct sep; [congruence | eauto]).
  replace (tl (sep ++ a)) with (t ++ a) by (rewrite E; reflexivity).
  apply rfind_inside with (u := [c]); auto. discriminate.
Qed.

(** Without overlaps, the last piece of [split] is the text after the last
    occurrence. *)
Lemma last_split_rfind (n : nat) :
  forall s b a, length s <= n -> rfind sep s = Some (b, a) ->
    last (split sep s) [] = a /\ 1 < length (split sep s).
Proof.
  induction n as [|n IH]; intros s b a Hn H.
  - destruct s; [|simpl in Hn; lia]. rewrite rfind_eq in H. discriminate.
  - rewrite split_eq. destruct (find sep s) as [[b1 a1]|] eqn:F.
    + apply find_shorter in F as Hlen. apply find_some in F as Hs.
      destruct (rfind sep a1) as [[b2 a2]|] eqn:R.
      * destruct (IH a1 b2 a2) as [Hl Hc]; [lia | exact R |].
        assert (a = a2).
        { apply (rfind_app (b1 ++ sep)) in R as Hr.
          rewrite Hs, app_assoc, Hr in H. congruence. }
        subst a. split; [|simpl; lia].
        destruct (split sep a1) eqn:Sp; [simpl in Hc; lia|]. exact Hl.
      * apply (rfind_single b1) in R as Hr. rewrite Hs, Hr in H.
        inversion H; subst b a.
        rewrite split_eq.
        apply rfind_none_find in R. rewrite R. split; [reflexivity|].
        simpl. lia.
    + apply rfind_none_find in F. congruence.
Qed.

End Separator.

End SplitFacts.

(** ** The fences *)

Module FenceFacts.
Import Py PyFacts Spec SplitFacts Extract.

Lemma startswith_shorter (t : str) :
  forall p a, startswith p (t ++ a) = true -> length t <= length p ->
    startswith t p = true.
Proof.
  induction t as [|c t IH]; intros p a H Hl; [reflexivity|].
  destruct p as [|x p]; [simpl in Hl; lia|].
  simpl in H. apply andb_true_iff in H. destruct H as [Hx Hp].
  apply char_eqb_eq in Hx. subst x. simpl. rewrite char_eqb_refl.
  apply IH with a; [exact Hp | simpl in Hl; lia].
Qed.

Lemma no_overlapb_sound (sep : str) : no_overlapb sep = true -> no_overlap sep.
Proof.
  intros H u t a Hsep Hu Ht.
  destruct (startswith sep (t ++ a)) eqn:E; [|reflexivity].
  exfalso. unfold no_overlapb in H. rewrite forallb_forall in H.
  assert (Hlen : length sep = length u + length t)
    by (rewrite Hsep; apply length_app).
  specialize (H (length u)).
  rewrite Hsep in H at 2. rewrite skipn_length_app in H.
  rewrite (startswith_shorter t sep a E) in H by lia.
  assert (In (length u) (seq 1 (length sep - 1))).
  { apply in_seq. destruct u; [congruence|]. destruct t; [congruence|].
    simpl in *. lia. }
  specialize (H H0). discriminate.
Qed.

Lemma fence_lean4_no_overlap : no_overlap fence_lean4.
Proof. apply no_overlapb_sound. reflexivity. Qed.

Lemma fence_lean_no_overlap : no_overlap fence_lean.
Proof. apply no_overlapb_sound. reflexivity. Qed.

Lemma fence_lean4_nonempty : fence_lean4 <> [].
Proof. discriminate. Qed.

Lemma fence_lean_nonempty : fence_lean <> [].
Proof. discriminate. Qed.

Lemma fence_nonempty : fence <> [].
Proof. discriminate. Qed.

Lemma marker_nonempty : marker <> [].
Proof. discriminate. Qed.

Lemma contains_rfind (sep s : str) :
  sep <> [] ->
  contains sep s = match rfind sep s with Some _ => true | None => false end.
Proof.
  intro Hne. unfold contains.
  destruct (rfind sep s) as [[b a]|] eqn:R.
  - destruct (find sep s) eqn:F; [reflexivity|].
    apply rfind_none_find in F; congruence.
  - apply rfind_none_find in R; [|exact Hne]. now rewrite R.
Qed.

(** The excerpt ends before the next fence. *)
Lemma up_to_fence_eq (s : str) :
  up_to_fence s =
  strip (match find fence s with Some (b, _) => b | None => s end).
Proof.
  unfold up_to_fence. rewrite (split_eq fence_nonempty).
  destruct (find fence s) as [[b a]|]; reflexivity.
Qed.

(** Rule (i) looks at the text after the last marker. *)
Lemma after_marker_code_eq (t : str) :
  after_marker_code t =
  match rfind marker t with
  | Some (_, a) =>
      if startswith fence_lean4 (lstrip a)
      then up_to_fence (skipn (length fence_lean4) (lstrip a))
      else []
  | None => []
  end.
Proof.
  unfold after_marker_code, rsplit1.
  rewrite (contains_rfind _ marker_nonempty).
  destruct (rfind marker t) as [[b a]|]; [|reflexivity].
  cbn [last]. destruct (startswith fence_lean4 (lstrip a)) eqn:E;
    [|reflexivity].
  unfold split1. cbn [split_upto]. rewrite find_eq, E. reflexivity.
Qed.

(** Rules (ii) and (iii) look at the text after the last fence. *)
Lemma last_fence_code_eq (t : str) :
  last_fence_code t =
  match rfind fence_lean4 t with
  | Some (_, a) => up_to_fence a
  | None =>
      match rfind fence_lean t with
      | Some (_, a) => up_to_fence a
      | None => []
      end
  end.
Proof.
  unfold last_fence_code.
  rewrite (contains_rfind _ fence_lean4_nonempty).
  rewrite (contains_rfind _ fence_lean_nonempty).
  destruct (rfind fence_lean4 t) as [[b a]|] eqn:R4.
  - destruct (last_split_rfind fence_lean4_nonempty fence_lean4_no_overlap
                (n := length t) t (le_n _) R4) as [Hl Hc].
    apply Nat.ltb_lt in Hc. now rewrite Hc, Hl.
  - destruct (rfind fence_lean t) as [[b a]|] eqn:R; [|reflexivity].
    destruct (last_split_rfind fence_lean_nonempty fence_lean_no_overlap
                (n := length t) t (le_n _) R) as [Hl Hc].
    apply Nat.ltb_lt in Hc. now rewrite Hc, Hl.
Qed.

End FenceFacts.

(** ** The batch *)

Module BatchFacts.
Import Py Verifier Batch BatchSpec.

Lemma closes_app (tr tr' : list event) :
  closes (tr ++ tr') = closes tr + closes tr'.
Proof. unfold closes. now rewrite filter_app, length_app. Qed.

Lemma with_code_cons (i : nat) (e : entry) (l : list (nat * entry)) :
  with_code ((i, e) :: l)
  = if has_code e then (i, e) :: with_code l else with_code l.
Proof. reflexivity. Qed.

Lemma without_code_cons (i : nat) (e : entry) (l : list (nat * entry)) :
  without_code ((i, e) :: l)
  = if negb (has_code e) then (i, e) :: without_code l else without_code l.
Proof. reflexivity. Qed.

Section WithScheduler.

Variable sch : scheduler.

(** The first loop never closes the scheduler, whatever happens in it. *)
Lemma submit_loop_closes (ws : str) (lines : list line) :
  forall i (p : pending sch) (w : world sch),
    closes (snd (snd (submit_loop ws i lines p w))) = closes (snd w).
Proof.
  induction lines as [|[e|] rest IH]; intros i p w.
  - reflexivity.
  - cbn [submit_loop]. unfold bind at 1, lift.
    destruct (Extract.extract_lean_code _ _) as [code|ex]; [|reflexivity].
    destruct (strip code) as [|c0 l0].
    + apply IH.
    + unfold bind, submit.
      destruct (submit_request sch (fst w) _) as [[h|ex] s'].
      * rewrite IH. cbn [snd]. rewrite closes_app. cbn. lia.
      * cbn [snd]. rewrite closes_app. cbn. lia.
  - cbn [submit_loop]. apply IH.
Qed.

Lemma body_closes file max_entries (ws : str) (w : world sch) :
  closes (snd (snd (body file max_entries ws w))) = closes (snd w).
Proof.
  unfold body. unfold bind at 1, lift.
  destruct file as [ls|]; [|reflexivity].
  unfold bind at 1.
  pose proof (submit_loop_closes ws (take_lines max_entries ls) 0
                {| request_ids := []; entries := []; results := [] |} w)
    as Hl.
  destruct (submit_loop ws 0 (take_lines max_entries ls) _ w)
    as [[p|ex] w'] eqn:E; cbn [snd] in Hl; [|exact Hl].
  destruct (request_ids p) as [|id ids]; [exact Hl|].
  unfold bind, get_all, lift.
  destruct (get_all_request_outputs sch (fst w') _) as [[outs|ex] s'];
    cbn [snd]; rewrite closes_app, Hl; cbn; lia.
Qed.

(** An entry for which nothing is extracted gets its record in the first
    loop, and the scheduler is not called for it. *)
Lemma submit_loop_no_code (ws : str) (i : nat) (rest : list line)
    (p : pending sch) (w : world sch) (e : entry) (c : str) :
  Extract.extract_lean_code (entry_response e) (entry_formal_statement e)
  = Ok c ->
  strip c = [] ->
  submit_loop ws i (Some e :: rest) p w
  = submit_loop ws (S i) rest
      {| request_ids := request_ids p;
         entries := entries p ++ [e];
         results := results p ++ [no_code_record e i] |} w.
Proof.
  intros He Hs. cbn [submit_loop]. unfold bind, lift. now rewrite He, Hs.
Qed.

Variable outcome_of : sched_state sch -> handle sch -> output.
Hypothesis sch_answers : answers sch outcome_of.

Lemma issue_cons (s : sched_state sch) (rq : request) (rqs : list request) :
  exists h s',
    submit_request sch s rq = (Ok h, s')
    /\ issue sch s (rq :: rqs)
       = (h :: fst (issue sch s' rqs), snd (issue sch s' rqs)).
Proof.
  destruct sch_answers as [Hsub _]. destruct (Hsub s rq) as (h & s' & E).
  exists h, s'. split; [exact E|]. cbn [issue]. rewrite E.
  destruct (issue sch s' rqs); reflexivity.
Qed.

Lemma code_of_ok (e : entry) (c : str) :
  Extract.extract_lean_code (entry_response e) (entry_formal_statement e)
  = Ok c ->
  code_of e = c.
Proof. intro H. unfold code_of. now rewrite H. Qed.

(** The first loop on lines that all parse and extract: the entries with
    code are submitted in the order of the input and the others get their
    record at once. *)
Lemma submit_loop_parsed (ws : str) (es : list entry) :
  Forall extracts es ->
  forall i (p : pending sch) s tr,
    let ies := numbered i es in
    let run := issue sch s (map (request_of ws) (with_code ies)) in
    submit_loop ws i (map Some es) p (s, tr)
    = (Ok {| request_ids :=
               request_ids p ++ map (@to_id sch)
                                    (combine (with_code ies) (fst run));
             entries := entries p ++ es;
             results :=
               results p
               ++ map (fun ie => no_code_record (snd ie) (fst ie))
                      (without_code ies) |},
       (snd run,
        tr ++ map (fun ie => Submit (code_of (snd ie))) (with_code ies))).
Proof.
  induction 1 as [|e es [c He] Hes IH]; intros i p s tr; cbv zeta.
  - unfold ret. cbn. rewrite !app_nil_r. destruct p; reflexivity.
  - cbn [map submit_loop numbered]. unfold bind at 1, lift. rewrite He.
    pose proof (code_of_ok _ He) as Hc.
    assert (Hh : has_code e = match strip c with [] => false | _ => true end)
      by (unfold has_code; now rewrite Hc).
    rewrite (with_code_cons i e), (without_code_cons i e), Hh.
    destruct (strip c) as [|c0 l0] eqn:Es; cbn [negb].
    + rewrite IH. cbv zeta. cbn [request_ids entries results map fst snd].
      rewrite <- !app_assoc. reflexivity.
    + cbn [map]. unfold bind, submit. cbn [fst snd req_code].
      destruct (issue_cons s (request_of ws (i, e))
                  (map (request_of ws) (with_code (numbered (S i) es))))
        as (h & s' & Esub & Eissue).
      rewrite Eissue. unfold request_of at 1 in Esub. cbn [snd] in Esub.
      rewrite Hc in Esub. rewrite Esub.
      rewrite IH. cbv zeta.
      cbn [request_ids entries results map fst snd combine].
      unfold to_id at 2. cbn [fst snd]. rewrite Hc.
      rewrite <- !app_assoc. reflexivity.
Qed.

Lemma numbered_nth (es : list entry) :
  forall k i e, In (i, e) (numbered k es) ->
    k <= i /\ nth_error es (i - k) = Some e.
Proof.
  induction es as [|e0 es IH]; intros k i e H; [contradiction|].
  destruct H as [H|H].
  - inversion H; subst. rewrite Nat.sub_diag. auto.
  - apply IH in H. destruct H as [Hk Hn]. split; [lia|].
    replace (i - k) with (S (i - S k)) by lia. exact Hn.
Qed.

(** The second loop, when every position it looks up holds the entry the
    request was made for. *)
Lemma collect_loop_all (ents : list entry) (s1 : sched_state sch)
    (l : list ((nat * entry) * handle sch)) :
  (forall ie h, In (ie, h) l -> nth_error ents (fst ie) = Some (snd ie)) ->
  forall rs,
    collect_loop sch ents
      (combine (map (@to_id sch) l)
               (map (outcome_of s1)
                    (map (fun r => fst (fst r)) (map (@to_id sch) l))))
      rs
    = Ok (rs ++ map (fun ieh =>
                       verified_record (snd (fst ieh)) (fst (fst ieh))
                         (code_of (snd (fst ieh))) (outcome_of s1 (snd ieh)))
                    l).
Proof.
  induction l as [|[[i e] h] l IH]; intros Hn rs.
  - cbn. now rewrite app_nil_r.
  - cbn [map combine collect_loop to_id fst snd].
    pose proof (Hn (i, e) h (or_introl eq_refl)) as Hi. cbn [fst snd] in Hi.
    rewrite Hi, IH.
    + now rewrite <- app_assoc.
    + intros ie h' Hin. apply (Hn ie h'). now right.
Qed.




(** A batch whose lines all parse and extract, on a scheduler that
    answers: the results are the expected ones. *)
Lemma process_parsed (file : list line) (max_entries : option Z)
    (ws : str) (s0 : sched_state sch) (es : list entry) :
  take_lines max_entries file = map Some es ->
  Forall extracts es ->
  fst (process_jsonl_file sch true (Some file) max_entries ws s0)
  = Ok (expected_results sch outcome_of ws s0 es).
Proof.
  intros Hfile Hes. unfold process_jsonl_file, try_finally, close, body.
  unfold bind at 1, lift. unfold bind at 1. rewrite Hfile.
  rewrite (submit_loop_parsed ws Hes). cbv zeta.
  cbn [request_ids entries results app].
  unfold expected_results.
  set (wc := with_code (numbered 0 es)).
  destruct (issue sch s0 (map (request_of ws) wc)) as [hs s1] eqn:Ei.
  cbn [fst snd].
  destruct (map (@to_id sch) (combine wc hs)) as [|id ids] eqn:Eids.
  - unfold ret. cbn [fst].
    destruct (combine wc hs); [|discriminate]. cbn [map].
    now rewrite app_nil_r.
  - rewrite <- Eids. unfold bind, get_all, lift. cbn [fst snd].
    destruct sch_answers as [_ Hget].
    destruct (Hget s1 (map (fun r => fst (fst r))
                           (map (@to_id sch) (combine wc hs))))
      as (s2 & Eg).
    rewrite Eg. rewrite collect_loop_all; [reflexivity|].
    intros [i e] h Hin. apply in_combine_l in Hin.
    apply filter_In in Hin. destruct Hin as [Hin _].
    apply numbered_nth in Hin. destruct Hin as [_ Hin].
    now rewrite Nat.sub_0_r in Hin.
Qed.

(** After a line that does not parse, an entry with code is looked up
    one position too far: a batch of these two lines raises. *)
Lemma malformed_line_index_error (ws : str) (s0 : sched_state sch)
    (e : entry) :
  extracts e -> has_code e = true ->
  fst (process_jsonl_file sch true (Some [None; Some e]) None ws s0)
  = Raise IndexError.
Proof.
  intros [c He] Hc. unfold has_code in Hc.
  rewrite (code_of_ok _ He) in Hc.
  unfold process_jsonl_file, try_finally, close, body.
  unfold bind at 1, lift. unfold bind at 1.
  cbn [take_lines submit_loop]. unfold bind at 1, lift. rewrite He.
  destruct (strip c) as [|c0 l0]; [discriminate|].
  unfold bind at 1, submit. cbn [fst snd].
  destruct sch_answers as [Hsub Hget].
  destruct (Hsub s0 {| req_code := c; req_ast := false; req_tactics := true;
                       req_lean_workspace := ws |}) as (h & s1 & Es).
  rewrite Es. unfold ret. cbn [request_ids entries results app map fst snd].
  unfold bind, get_all, lift. cbn [fst snd].
  destruct (Hget s1 [h]) as (s2 & Eg). rewrite Eg.
  reflexivity.
Qed.

End WithScheduler.

End BatchFacts.

(** ** The choice of the excerpt *)

Module SelectFacts.
Import Py PyFacts Spec SplitFacts FenceFacts Extract.

Lemma up_to_fence_excerpt (a : str) : up_to_fence a = excerpt a.
Proof. apply up_to_fence_eq. Qed.

(** The excerpt of rule (i), or the empty text when the rule does not
    apply. *)
Lemma after_marker_code_rule (t code : str) :
  marker_rule t code -> after_marker_code t = code.
Proof.
  intros (b & a & Hl & Hs & ->). rewrite after_marker_code_eq.
  apply (rfind_last marker_nonempty) in Hl. rewrite Hl, Hs.
  apply up_to_fence_excerpt.
Qed.

Lemma after_marker_code_no_rule (t : str) :
  (forall c, marker_rule t c -> c = []) -> after_marker_code t = [].
Proof.
  intro H. rewrite after_marker_code_eq.
  destruct (rfind marker t) as [[b a]|] eqn:R; [|reflexivity].
  destruct (startswith fence_lean4 (lstrip a)) eqn:E; [|reflexivity].
  rewrite up_to_fence_excerpt. apply H. exists b, a.
  apply (rfind_last marker_nonempty) in R. auto.
Qed.

Lemma last_fence_code_strict (t code : str) :
  strict_rule t code -> last_fence_code t = code.
Proof.
  intros (b & a & Hl & ->). rewrite last_fence_code_eq.
  apply (rfind_last fence_lean4_nonempty) in Hl. rewrite Hl.
  apply up_to_fence_excerpt.
Qed.

Lemma no_strict_rule (t : str) :
  (forall c, ~ strict_rule t c) -> rfind fence_lean4 t = None.
Proof.
  intro H. destruct (rfind fence_lean4 t) as [[b a]|] eqn:R; [|reflexivity].
  exfalso. apply (H (excerpt a)). exists b, a.
  apply (rfind_last fence_lean4_nonempty) in R. auto.
Qed.

Lemma no_loose_rule (t : str) :
  (forall c, ~ loose_rule t c) -> rfind fence_lean t = None.
Proof.
  intro H. destruct (rfind fence_lean t) as [[b a]|] eqn:R; [|reflexivity].
  exfalso. apply (H (excerpt a)). exists b, a.
  apply (rfind_last fence_lean_nonempty) in R. auto.
Qed.

Lemma last_fence_code_loose (t code : str) :
  (forall c, ~ strict_rule t c) -> loose_rule t code ->
  last_fence_code t = code.
Proof.
  intros Hn (b & a & Hl & ->). rewrite last_fence_code_eq.
  rewrite (no_strict_rule Hn).
  apply (rfind_last fence_lean_nonempty) in Hl. rewrite Hl.
  apply up_to_fence_excerpt.
Qed.

Lemma last_fence_code_none (t : str) :
  (forall c, ~ strict_rule t c) -> (forall c, ~ loose_rule t c) ->
  last_fence_code t = [].
Proof.
  intros H4 H. rewrite last_fence_code_eq.
  now rewrite (no_strict_rule H4), (no_loose_rule H).
Qed.

(** A text without backticks holds no fence, and the first fence after
    it is the next one. *)
Lemma startswith_backtick (sep s : str) (c : char) :
  c <> backtick -> startswith (backtick :: sep) (c :: s) = false.
Proof.
  intro H. cbn [startswith].
  destruct (char_eqb backtick c) eqn:E; [|reflexivity].
  apply char_eqb_eq in E. congruence.
Qed.

Lemma rfind_clean (sep x y : str) :
  Forall (fun c => c <> backtick) x ->
  rfind (backtick :: sep) y = None ->
  rfind (backtick :: sep) (x ++ y) = None.
Proof.
  intros Hx Hy. induction Hx as [|c x Hc Hx IH]; [exact Hy|].
  simpl app. rewrite rfind_eq by discriminate.
  now rewrite IH, startswith_backtick.
Qed.

Lemma find_clean_sep (sep x post : str) :
  Forall (fun c => c <> backtick) x ->
  find (backtick :: sep) (x ++ (backtick :: sep) ++ post) = Some (x, post).
Proof.
  intro Hx. induction Hx as [|c x Hc Hx IH]; rewrite find_eq.
  - change ([] ++ (backtick :: sep) ++ post)
      with ((backtick :: sep) ++ post).
    now rewrite startswith_app, skipn_length_app.
  - change ((c :: x) ++ (backtick :: sep) ++ post)
      with (c :: x ++ (backtick :: sep) ++ post).
    rewrite startswith_backtick by assumption. now rewrite IH.
Qed.

Lemma find_clean (x post : str) :
  Forall (fun c => c <> backtick) x ->
  find fence (x ++ fence ++ post) = Some (x, post).
Proof. apply find_clean_sep. Qed.

(** The excerpt of a response whose last strict-dialect block holds [x],
    and which has no marker. *)
Lemma extracted_last_block (pre x post : str) :
  Forall (fun c => c <> backtick) x ->
  strip x <> [] ->
  ~ occurs marker (pre ++ fence_lean4 ++ x ++ fence ++ post) ->
  ~ occurs fence_lean4 (fence ++ post) ->
  extracted_code (VStr (pre ++ fence_lean4 ++ x ++ fence ++ post)) = strip x.
Proof.
  intros Hx Hne Hm Hf. cbn [extracted_code].
  rewrite after_marker_code_eq.
  apply (rfind_none_occurs marker_nonempty) in Hm. rewrite Hm.
  rewrite last_fence_code_eq.
  rewrite (rfind_single fence_lean4_nonempty fence_lean4_no_overlap).
  - rewrite up_to_fence_eq, find_clean by assumption. reflexivity.
  - apply rfind_clean; [assumption|].
    now apply (rfind_none_occurs fence_lean4_nonempty).
Qed.

(** The rules, read off the last occurrence that [rfind] computes. *)
Lemma marker_rule_rfind (t code : str) :
  marker_rule t code <->
  exists b a,
    rfind marker t = Some (b, a)
    /\ startswith fence_lean4 (lstrip a) = true
    /\ code = excerpt (skipn (length fence_lean4) (lstrip a)).
Proof.
  unfold marker_rule.
  split; intros (b & a & H & Hr); exists b, a; (split; [|exact Hr]);
    now apply (rfind_last marker_nonempty).
Qed.

Lemma strict_rule_rfind (t code : str) :
  strict_rule t code <->
  exists b a, rfind fence_lean4 t = Some (b, a) /\ code = excerpt a.
Proof.
  unfold strict_rule.
  split; intros (b & a & H & Hr); exists b, a; (split; [|exact Hr]);
    now apply (rfind_last fence_lean4_nonempty).
Qed.

Lemma loose_rule_rfind (t code : str) :
  loose_rule t code <->
  exists b a, rfind fence_lean t = Some (b, a) /\ code = excerpt a.
Proof.
  unfold loose_rule.
  split; intros (b & a & H & Hr); exists b, a; (split; [|exact Hr]);
    now apply (rfind_last fence_lean_nonempty).
Qed.

Lemma no_marker_rule_rfind (t : str) :
  rfind marker t = None -> forall c, ~ marker_rule t c.
Proof.
  intros H c Hc. apply marker_rule_rfind in Hc.
  destruct Hc as (b & a & Hr & _). congruence.
Qed.

Lemma no_strict_rule_rfind (t : str) :
  rfind fence_lean4 t = None -> forall c, ~ strict_rule t c.
Proof.
  intros H c Hc. apply strict_rule_rfind in Hc.
  destruct Hc as (b & a & Hr & _). congruence.
Qed.

Lemma no_loose_rule_rfind (t : str) :
  rfind fence_lean t = None -> forall c, ~ loose_rule t c.
Proof.
  intros H c Hc. apply loose_rule_rfind in Hc.
  destruct Hc as (b & a & Hr & _). congruence.
Qed.

End SelectFacts.

(** ** Runs of sample batches *)

Module Runs.
Import Py Re Verifier Batch Sample.

(** The primitives on texts cut where Python cuts. *)
Example split_overlapping :
  split (of_string "aa") (of_string "aaa") = [[]; of_string "a"]
  /\ rsplit1 (of_string "aa") (of_string "aaa") = [of_string "a"; []]
  /\ split (of_string "ab") (of_string "xabyabab")
     = [of_string "x"; of_string "y"; []; []]
  /\ rsplit1 (of_string "ab") (of_string "xabyabzab1")
     = [of_string "xabyabz"; of_string "1"].
Proof. repeat split. Qed.

Example strip_white_space :
  strip ([9; 32; 160; 8195]%N ++ of_string "a b" ++ [10; 13; 28]%N)
  = of_string "a b".
Proof. reflexivity. Qed.

Example finditer_spans :
  finditer sorry_pattern (of_string "a := sorry b :=sorry:= sorr")
  = [(2, 10); (13, 20)].
Proof. reflexivity. Qed.

Example search_group :
  search proof_body_pattern
    (of_string "a :=  b x" ++ [nl] ++ of_string " y := z ")
  = Some (of_string "b x" ++ [nl] ++ of_string " y := z ", []).
Proof. reflexivity. Qed.

Example take_lines_slices (a b c : line) :
  take_lines (Some 2%Z) [a; b; c] = [a; b]
  /\ take_lines (Some 7%Z) [a; b; c] = [a; b; c]
  /\ take_lines (Some (-1)%Z) [a; b; c] = [a; b]
  /\ take_lines (Some (-5)%Z) [a; b; c] = []
  /\ take_lines (Some 0%Z) [a; b; c] = [a; b; c]
  /\ take_lines None [a; b; c] = [a; b; c].
Proof. repeat split. Qed.

(** The diagnostic text of some outcomes. *)
Example format_error_check_texts :
  format_error_check (complete_after 1) COMPLETE
  = of_string "SUCCESS: Proof verified successfully"
  /\ format_error_check crashed_complete SYSTEM_ERROR
     = of_string "SYSTEM_ERRORS: Lean process timed out"
  /\ format_error_check
       {| out_system_errors := None; out_complete := false;
          out_pass := false;
          out_errors :=
            [{| msg_line := of_string "1"; msg_column := of_string "18";
                msg_data := of_string "unknown identifier" |}];
          out_warnings := []; out_sorries := [of_string "{}"];
          out_verify_time := 2%Q |} FAIL
     = of_string "LEAN_ERRORS:" ++ [nl]
         ++ of_string "Error 1 (line 1, col 18): unknown identifier"
         ++ [nl; nl]
         ++ of_string "SORRIES: 1 sorry statements found: [{}]".
Proof. repeat split. Qed.

(** A scheduler whose calls raise is closed once all the same, and the
    exception is passed on. *)
Lemma failing_scheduler_closed :
  process_jsonl_file failing true (Some [Some entry_with_code]) None
    workspace tt
  = (Raise ServiceError, [Submit proof_exact_h; Close]).
Proof. vm_compute. reflexivity. Qed.

(** A file that cannot be read: no call but the closing one. *)
Lemma unreadable_file_closed :
  process_jsonl_file counting true None None workspace 0
  = (Raise OSError, [Close]).
Proof. reflexivity. Qed.

(** A fatal extraction error stops the batch, and the scheduler is
    closed. *)
Lemma fatal_extraction_closed :
  process_jsonl_file counting true
    (Some [Some entry_with_code;
           Some {| entry_idx := None;
                   entry_formal_statement := skeleton_by_sorry;
                   entry_response := VStr block |}])
    None workspace 0
  = (Raise ValueError, [Submit proof_exact_h; Close]).
Proof. vm_compute. reflexivity. Qed.

End Runs.

(** * Properties of trimming, cutting and the run *)

(** ** Trimming *)

Module StripFacts.
Import Py PyFacts Spec Notions CountFacts.

Lemma lstrip_head (s : str) :
  forall c r, lstrip s = c :: r -> is_space c = false.
Proof.
  induction s as [|x s IH]; intros c r H; [discriminate|].
  simpl in H. destruct (is_space x) eqn:E; [now apply IH with r|].
  inversion H; subst. exact E.
Qed.

Lemma lstrip_fixed (s : str) :
  (forall c r, s = c :: r -> is_space c = false) -> lstrip s = s.
Proof.
  intro H. destruct s as [|c r]; [reflexivity|].
  simpl. now rewrite (H c r eq_refl).
Qed.

Lemma lstrip_idem (s : str) : lstrip (lstrip s) = lstrip s.
Proof. apply lstrip_fixed. apply lstrip_head. Qed.

Lemma lstrip_snoc (y : str) (c : char) :
  lstrip (y ++ [c]) =
  match lstrip y with
  | [] => lstrip [c]
  | l => l ++ [c]
  end.
Proof.
  induction y as [|d y IH]; [reflexivity|].
  simpl. destruct (is_space d); [exact IH | reflexivity].
Qed.

Lemma rstrip_cons (c : char) (x : str) :
  rstrip (c :: x) =
  match rstrip x with
  | [] => lstrip [c]
  | r => c :: r
  end.
Proof.
  unfold rstrip. simpl rev. rewrite lstrip_snoc.
  destruct (lstrip (rev x)) as [|d l] eqn:E.
  - simpl. destruct (is_space c); reflexivity.
  - rewrite rev_app_distr. remember (rev (d :: l)) as rl eqn:R.
    destruct rl; [|reflexivity].
    apply (f_equal (@length _)) in R. rewrite length_rev in R. discriminate.
Qed.

Lemma rstrip_last (s : str) :
  forall r c, rstrip s = r ++ [c] -> is_space c = false.
Proof.
  intros r c H. unfold rstrip in H.
  apply (f_equal (@rev _)) in H. rewrite rev_involutive, rev_app_distr in H.
  simpl in H. now apply lstrip_head in H.
Qed.

Lemma rstrip_keeps_head (s : str) :
  (forall c r, s = c :: r -> is_space c = false) ->
  forall c r, rstrip s = c :: r -> is_space c = false.
Proof.
  intros H c r Hr. destruct s as [|x s]; [discriminate|].
  rewrite rstrip_cons in Hr. pose proof (H x s eq_refl) as Hx.
  destruct (rstrip s).
  - simpl in Hr. rewrite Hx in Hr. inversion Hr; subst. exact Hx.
  - inversion Hr; subst. exact Hx.
Qed.

Lemma strip_trimmed (s : str) : trimmed (strip s).
Proof.
  split.
  - apply rstrip_keeps_head. apply lstrip_head.
  - apply rstrip_last.
Qed.

Lemma rstrip_fixed (s : str) :
  (forall r c, s = r ++ [c] -> is_space c = false) -> rstrip s = s.
Proof.
  intro H. unfold rstrip. rewrite lstrip_fixed; [apply rev_involutive|].
  intros c r Hr. apply (H (rev r) c).
  rewrite <- (rev_involutive s), Hr. reflexivity.
Qed.

Lemma trimmed_strip (s : str) : trimmed s <-> strip s = s.
Proof.
  split.
  - intros [Hl Hr]. unfold strip. rewrite (lstrip_fixed Hl).
    now apply rstrip_fixed.
  - intro H. rewrite <- H. apply strip_trimmed.
Qed.

Lemma strip_idem (s : str) : strip (strip s) = strip s.
Proof. apply trimmed_strip. apply strip_trimmed. Qed.

Lemma strip_lstrip (s : str) : strip (lstrip s) = strip s.
Proof. unfold strip. now rewrite lstrip_idem. Qed.

End StripFacts.

(** ** The first occurrence *)

Module FirstFacts.
Import Py PyFacts Spec Notions SplitFacts.

Lemma startswith_ext (p x y : str) :
  startswith p x = true -> startswith p (x ++ y) = true.
Proof.
  intro H. apply startswith_iff in H. destruct H as [r ->].
  rewrite <- app_assoc. apply startswith_app.
Qed.

Lemma startswith_within (p : str) :
  forall x y, startswith p (x ++ y) = true -> length p <= length x ->
    startswith p x = true.
Proof.
  induction p as [|c p IH]; intros x y H Hl; [reflexivity|].
  destruct x as [|d x]; [simpl in Hl; lia|].
  simpl in *. apply andb_true_iff in H. destruct H as [Hc Hp].
  rewrite Hc. apply IH with y; [exact Hp | lia].
Qed.

Lemma occurs_cons (sep x : str) (c : char) :
  occurs sep (c :: x) <-> startswith sep (c :: x) = true \/ occurs sep x.
Proof.
  split.
  - intros (pre & post & H). destruct pre as [|d pre].
    + left. simpl in H. rewrite H. apply startswith_app.
    + right. inversion H; subst. now exists pre, post.
  - intros [H|(pre & post & ->)].
    + apply startswith_iff in H. destruct H as [r H].
      exists [], r. exact H.
    + now exists (c :: pre), post.
Qed.

Lemma occurs_length (sep s : str) : occurs sep s -> length sep <= length s.
Proof. intros (pre & post & ->). rewrite !length_app. lia. Qed.

Section Separator.

Variable sep : str.
Hypothesis sep_nonempty : sep <> [].

Lemma removelast_cons_app (c : char) (b : str) :
  removelast ((c :: b) ++ sep) = c :: removelast (b ++ sep).
Proof.
  simpl. destruct (b ++ sep) eqn:E; [|reflexivity].
  apply app_eq_nil in E. tauto.
Qed.

Lemma removelast_app_sep (b a : str) :
  exists z, b ++ sep ++ a = removelast (b ++ sep) ++ [z] ++ a.
Proof.
  assert (Hne : b ++ sep <> []) by (intro E; apply app_eq_nil in E; tauto).
  exists (last (b ++ sep) 0%N).
  rewrite app_assoc, (app_removelast_last 0%N Hne) at 1.
  now rewrite <- !app_assoc.
Qed.

(** [find] cuts at the first occurrence, and only there. *)
Lemma find_first (s b a : str) :
  find sep s = Some (b, a) <-> first_occurrence sep s b a.
Proof.
  unfold first_occurrence. split.
  - intro H. split; [now apply find_some|]. revert b a H.
    induction s as [|c s IH]; intros b a H; rewrite find_eq in H.
    + destruct (startswith sep []) eqn:E; [|discriminate].
      destruct sep; [congruence | discriminate].
    + destruct (startswith sep (c :: s)) eqn:E.
      * inversion H; subst. simpl app. intro Ho.
        apply occurs_length in Ho.
        assert (length (removelast sep) < length sep).
        { destruct sep as [|x l] using rev_ind; [congruence|].
          rewrite removelast_last, length_app. simpl. lia. }
        lia.
      * destruct (find sep s) as [[b' a']|] eqn:F; [|discriminate].
        inversion H; subst. rewrite removelast_cons_app.
        intro Ho. apply occurs_cons in Ho. destruct Ho as [Ho|Ho].
        -- apply find_some in F.
           destruct (removelast_app_sep b' a) as [z Hz].
           rewrite F, Hz in E.
           change (c :: removelast (b' ++ sep) ++ [z] ++ a)
             with ((c :: removelast (b' ++ sep)) ++ [z] ++ a) in E.
           pose proof (@startswith_ext sep _ ([z] ++ a) Ho) as Ho'.
           rewrite Ho' in E. discriminate.
        -- exact (IH b' a eq_refl Ho).
  - intros [-> Hn]. induction b as [|c b IH]; rewrite find_eq.
    + simpl app. now rewrite startswith_app, skipn_length_app.
    + rewrite removelast_cons_app in Hn.
      destruct (startswith sep ((c :: b) ++ sep ++ a)) eqn:E.
      * exfalso. apply Hn. apply occurs_cons. left.
        destruct (removelast_app_sep b a) as [z Hz].
        simpl app in E. rewrite Hz in E.
        apply startswith_within with ([z] ++ a); [exact E|].
        simpl length.
        assert (length (b ++ sep) = S (length (removelast (b ++ sep)))).
        { apply (f_equal (@length _)) in Hz.
          rewrite !length_app in Hz. simpl in Hz.
          rewrite length_app. lia. }
        rewrite length_app in H. lia.
      * cbn [app]. rewrite IH; [reflexivity|].
        intro Ho. apply Hn. apply occurs_cons. now right.
Qed.

End Separator.

End FirstFacts.

(** ** The splice into one placeholder *)

Module SpliceFacts.
Import Py Re PyFacts Spec Notions ReFacts CountFacts ExtractFacts SplitFacts.
Import FenceFacts SelectFacts StripFacts FirstFacts Extract.

Lemma count_app_ge (pre y : str) :
  count_placeholders y <= count_placeholders (pre ++ y).
Proof.
  induction pre as [|c pre IH]; [apply le_n|].
  cbn [app count_placeholders]. lia.
Qed.

(** When no placeholder begins before [y] and one begins [y], the first
    match of [finditer] is the one at [y]. *)
Lemma finditer_first (pre y : str) :
  placeholder_here y = true ->
  count_placeholders (pre ++ y) = count_placeholders y ->
  forall pos, exists rest,
    finditer_from sorry_pattern 0 pos (pre ++ y)
    = (pos + length pre,
       pos + length pre
       + (length y - length (skipn 5 (lstrip (skipn 2 y)))))
      :: rest.
Proof.
  intros Hy. induction pre as [|c pre IH]; intros Hc pos.
  - destruct y as [|c y]; [discriminate|].
    cbn [app finditer_from length]. rewrite match_sorry, Hy.
    rewrite Nat.add_0_r. eexists. reflexivity.
  - cbn [app count_placeholders] in Hc.
    pose proof (count_app_ge pre y) as Hge.
    destruct (placeholder_here (c :: pre ++ y)) eqn:E; [lia|].
    cbn [app finditer_from]. rewrite match_sorry, E.
    destruct (IH ltac:(lia) (S pos)) as [rest Hr]. exists rest.
    rewrite Hr. cbn [length]. f_equal. f_equal; lia.
Qed.

(** The only match in a skeleton with one placeholder. *)
Lemma finditer_one (pre w post : str) :
  Forall (fun c => is_space c = true) w ->
  count_placeholders (pre ++ assign ++ w ++ sorry ++ post) = 1 ->
  finditer sorry_pattern (pre ++ assign ++ w ++ sorry ++ post)
  = [(length pre, length pre + (2 + length w + 5))].
Proof.
  intros Hw Hc. set (y := assign ++ w ++ sorry ++ post) in *.
  assert (Hy : placeholder_here y = true)
    by (apply placeholder_here_iff; now exists w, post).
  assert (Hcy : count_placeholders (pre ++ y) = count_placeholders y).
  { pose proof (count_app_ge pre y).
    assert (1 <= count_placeholders y).
    { destruct y; [discriminate|]. cbn [count_placeholders].
      rewrite Hy. lia. }
    lia. }
  destruct (@finditer_first pre y Hy Hcy 0) as [rest Hr].
  pose proof (finditer_count (pre ++ y)) as Hl.
  unfold finditer in *. rewrite Hr in Hl. rewrite Hc in Hl.
  destruct rest; [|discriminate]. rewrite Hr. cbn [Nat.add].
  f_equal. f_equal. f_equal.
  assert (Hs : skipn 5 (lstrip (skipn 2 y)) = post).
  { unfold y.
    change (skipn 2 (assign ++ w ++ sorry ++ post)) with (w ++ sorry ++ post).
    rewrite lstrip_app_spaces by assumption. reflexivity. }
  rewrite Hs. unfold y. rewrite !length_app.
  change (length assign) with 2. change (length sorry) with 5. lia.
Qed.

(** The splice into a skeleton with one placeholder. *)
Lemma splice_one (code b a pre w post : str) :
  find assign code = Some (b, a) ->
  Forall (fun c => is_space c = true) w ->
  count_placeholders (pre ++ assign ++ w ++ sorry ++ post) = 1 ->
  splice code (pre ++ assign ++ w ++ sorry ++ post)
  = Ok (strip (pre ++ of_string ":= " ++ strip a ++ post)).
Proof.
  intros Hf Hw Hc. unfold splice.
  rewrite search_proof_body, Hf, (@finditer_one pre w post Hw Hc).
  cbn [length rev app Nat.eqb]. rewrite strip_lstrip.
  rewrite firstn_app, firstn_all, Nat.sub_diag. cbn [firstn].
  rewrite app_nil_r.
  replace (skipn (length pre + (2 + length w + 5))
             (pre ++ assign ++ w ++ sorry ++ post)) with post;
    [reflexivity|].
  rewrite skipn_app.
  rewrite (skipn_all2 pre) by lia. cbn [app].
  replace (length pre + (2 + length w + 5) - length pre)
    with (length (assign ++ w ++ sorry))
    by (rewrite !length_app; change (length assign) with 2;
        change (length sorry) with 5; lia).
  rewrite !app_assoc. rewrite <- (app_assoc assign).
  now rewrite skipn_length_app.
Qed.

(** What [splice] gives is trimmed. *)
Lemma splice_trimmed (code header c : str) :
  splice code header = Ok c -> strip c = c.
Proof.
  unfold splice. destruct (search proof_body_pattern code) as [[g r]|].
  - destruct (Nat.eqb _ 1); [|discriminate].
    intro H. inversion H. apply strip_idem.
  - intro H. inversion H. apply strip_idem.
Qed.

(** [splice] raises only for want of exactly one placeholder. *)
Lemma splice_raises (code header : str) (ex : exn) :
  splice code header = Raise ex ->
  ex = ValueError /\ has_assign code /\ count_placeholders header <> 1.
Proof.
  unfold splice. rewrite search_proof_body.
  destruct (find assign code) as [[b a]|] eqn:F; [|discriminate].
  rewrite finditer_count.
  destruct (Nat.eqb_spec (count_placeholders header) 1); [discriminate|].
  intro H. inversion H. repeat split; [|assumption].
  exists b, a. now apply find_some.
Qed.

(** A text without backticks has no fence. *)
Lemma find_none_clean (sep x : str) :
  Forall (fun c => c <> backtick) x -> find (backtick :: sep) x = None.
Proof.
  intro Hx. apply (rfind_none_find (sep := backtick :: sep));
    [discriminate|].
  rewrite <- (app_nil_r x). apply rfind_clean; [assumption|reflexivity].
Qed.

End SpliceFacts.

(** ** The diagnostic text *)

Module DiagFacts.
Import Py PyFacts Spec Notions Verifier.

Lemma join_head (sep p : str) (rest : list str) :
  exists tail, join sep (p :: rest) = p ++ tail.
Proof.
  destruct rest as [|q rest].
  - exists []. simpl. now rewrite app_nil_r.
  - eexists. reflexivity.
Qed.

(** With nothing to report the text is the fixed one of the status. *)
Lemma format_error_check_clean (o : output) (st : status) :
  clean o ->
  format_error_check o st =
  match st with
  | NO_CODE_FOUND => no_code_text
  | COMPLETE => success_text
  | PASS_WITH_ISSUES => issues_text
  | _ => unknown_text
  end.
Proof.
  intros (Hs & He & Hw & Hr). unfold format_error_check.
  unfold has_system_errors in Hs. rewrite He, Hw, Hr.
  destruct st; try reflexivity;
    destruct (out_system_errors o) as [[|c t]|];
    try discriminate; reflexivity.
Qed.

(** With something to report the text begins with the label of the first
    section. *)
Lemma format_error_check_dirty (o : output) (st : status) :
  ~ clean o -> st <> NO_CODE_FOUND ->
  exists tail,
    format_error_check o st = of_string "SYSTEM_ERRORS: " ++ tail
    \/ format_error_check o st = of_string "LEAN_ERRORS:" ++ tail
    \/ format_error_check o st = of_string "WARNINGS:" ++ tail
    \/ format_error_check o st = of_string "SORRIES: " ++ tail.
Proof.
  intros Hc Hst.
  unfold clean, has_system_errors in Hc.
  assert (Hparts :
    exists p rest tail0,
      (p = of_string "SYSTEM_ERRORS: " ++ tail0
       \/ p = of_string "LEAN_ERRORS:" ++ tail0
       \/ p = of_string "WARNINGS:" ++ tail0
       \/ p = of_string "SORRIES: " ++ tail0)
      /\ format_error_check o st = join [nl; nl] (p :: rest)).
  { unfold format_error_check.
    destruct (out_system_errors o) as [[|c t]|];
      destruct (out_errors o) as [|e es];
      destruct (out_warnings o) as [|w ws];
      destruct (out_sorries o) as [|r rs];
      try (exfalso; apply Hc; repeat split; reflexivity);
      destruct st; try congruence;
      cbn [app];
      eexists; eexists; eexists;
      (split; [|reflexivity]);
      first [ left; reflexivity
            | right; left; reflexivity
            | right; right; left; reflexivity
            | right; right; right; reflexivity ]. }
  destruct Hparts as (p & rest & tail0 & Hp & Hj).
  destruct (join_head [nl; nl] p rest) as [tail Ht].
  exists (tail0 ++ tail).
  assert (He : format_error_check o st = p ++ tail)
    by (rewrite Hj; exact Ht).
  rewrite He.
  destruct Hp as [-> | [-> | [-> | ->]]]; rewrite <- !app_assoc; auto.
Qed.

Lemma clean_dec (o : output) : clean o \/ ~ clean o.
Proof.
  unfold clean.
  destruct (has_system_errors o), (out_errors o), (out_warnings o),
    (out_sorries o); auto;
    right; intros (H1 & H2 & H3 & H4); discriminate.
Qed.

(** The fixed texts are given for an outcome with nothing to report, and
    for nothing else. *)
Lemma fixed_text_clean (o : output) (st : status) :
  format_error_check o st = success_text
  \/ format_error_check o st = issues_text
  \/ format_error_check o st = unknown_text ->
  st <> NO_CODE_FOUND /\ clean o.
Proof.
  intro H. assert (Hst : st <> NO_CODE_FOUND).
  { intros ->. cbn in H. destruct H as [H|[H|H]]; vm_compute in H;
      discriminate. }
  split; [exact Hst|]. destruct (clean_dec o) as [Hc|Hc]; [exact Hc|].
  exfalso. destruct (format_error_check_dirty Hc Hst) as [tail Ht].
  destruct Ht as [Ht|[Ht|[Ht|Ht]]]; rewrite Ht in H;
    destruct H as [H|[H|H]]; vm_compute in H; discriminate.
Qed.

(** The details of a list of messages are numbered from [i + 1] on, one
    for each message and in their order. *)
Lemma details_nth (label : str) (ms : list message) :
  forall i k m,
    nth_error ms k = Some m ->
    nth_error (details label i ms) k
    = Some (label ++ of_string " " ++ decimal (i + k + 1)
              ++ of_string " (line " ++ msg_line m ++ of_string ", col "
              ++ msg_column m ++ of_string "): " ++ msg_data m).
Proof.
  induction ms as [|m0 ms IH]; intros i k m H.
  - destruct k; discriminate.
  - destruct k as [|k].
    + inversion H; subst. cbn [details nth_error].
      now rewrite Nat.add_0_r.
    + cbn [details nth_error]. cbn [nth_error] in H.
      rewrite (IH (S i) k m H).
      replace (S i + k + 1) with (i + S k + 1) by lia. reflexivity.
Qed.

Lemma details_length (label : str) (ms : list message) :
  forall i, length (details label i ms) = length ms.
Proof.
  induction ms as [|m ms IH]; intro i; [reflexivity|].
  cbn [details length]. now rewrite IH.
Qed.

End DiagFacts.

(** ** The calls and the records of a run *)

Module TraceFacts.
Import Py Verifier Batch PyFacts Spec Notions BatchSpec BatchFacts.
Import StripFacts SpliceFacts.

(** What [extract_lean_code] returns is trimmed. *)
Lemma extract_trimmed (response : value) (header c : str) :
  Extract.extract_lean_code response header = Ok c -> strip c = c.
Proof.
  unfold Extract.extract_lean_code, Extract.scan.
  destruct (Extract.extracted_code _) as [|x code].
  - intro H. inversion H. reflexivity.
  - apply splice_trimmed.
Qed.

Lemma is_no_code_record (e : entry) (i : nat) :
  is_no_code (no_code_record e i).
Proof. repeat split. Qed.



Section WithScheduler.

Variable sch : scheduler.

(** One step of the first loop. *)
Lemma submit_loop_raise (ws : str) (i : nat) (rest : list line)
    (p : pending sch) (w : world sch) (e : entry) (ex : exn) :
  Extract.extract_lean_code (entry_response e) (entry_formal_statement e)
  = Raise ex ->
  submit_loop ws i (Some e :: rest) p w = (Raise ex, w).
Proof. intro He. cbn [submit_loop]. unfold bind, lift. now rewrite He. Qed.

Lemma submit_loop_submit (ws : str) (i : nat) (rest : list line)
    (p : pending sch) (w : world sch) (e : entry) (c : str) :
  Extract.extract_lean_code (entry_response e) (entry_formal_statement e)
  = Ok c ->
  strip c <> [] ->
  submit_loop ws i (Some e :: rest) p w
  = match submit_request sch (fst w)
            {| req_code := c; req_ast := false; req_tactics := true;
               req_lean_workspace := ws |} with
    | (Ok h, s') =>
        submit_loop ws (S i) rest
          {| request_ids := request_ids p ++ [(h, i, c)];
             entries := entries p ++ [e];
             results := results p |}
          (s', snd w ++ [Submit c])
    | (Raise ex, s') => (Raise ex, (s', snd w ++ [Submit c]))
    end.
Proof.
  intros He Hs. cbn [submit_loop]. unfold bind, lift, submit. rewrite He.
  destruct (strip c); [congruence|]. cbn [req_code].
  destruct (submit_request sch (fst w) _) as [[h|ex] s']; reflexivity.
Qed.

(** The first loop only submits, and what it submits is trimmed and not
    empty; the requests it keeps are the ones it submitted; the records it
    writes are records without code. *)
Lemma submit_loop_trace (ws : str) (lines : list line) :
  forall i (p : pending sch) (w : world sch),
  exists codes,
    snd (snd (submit_loop ws i lines p w)) = snd w ++ map Submit codes
    /\ Forall good_code codes
    /\ forall p', fst (submit_loop ws i lines p w) = Ok p' ->
         map snd (request_ids p') = map snd (request_ids p) ++ codes
         /\ exists rs, results p' = results p ++ rs /\ Forall is_no_code rs.
Proof.
  induction lines as [|[e|] rest IH]; intros i p w.
  - exists []. cbn [submit_loop map]. unfold ret. cbn [fst snd].
    rewrite app_nil_r. split; [reflexivity|]. split; [constructor|].
    intros p' H. inversion H; subst. rewrite app_nil_r. split; [reflexivity|].
    exists []. now rewrite app_nil_r.
  - change (@cons line (Some e) rest)
      with (@cons (option entry) (Some e) rest).
    destruct (Extract.extract_lean_code (entry_response e)
                (entry_formal_statement e)) as [code|ex] eqn:He.
    + destruct (strip code) as [|c0 l0] eqn:Es.
      * rewrite (submit_loop_no_code ws i rest p w e He Es).
        destruct (IH (S i)
                    {| request_ids := request_ids p;
                       entries := entries p ++ [e];
                       results := results p ++ [no_code_record e i] |} w)
          as (codes & Ht & Hg & Hp).
        exists codes. split; [exact Ht|]. split; [exact Hg|].
        intros p' H. destruct (Hp p' H) as [Hids (rs & Hrs & Hn)].
        cbn [request_ids results] in *. split; [exact Hids|].
        exists (no_code_record e i :: rs).
        split; [rewrite Hrs, <- app_assoc; reflexivity|].
        constructor; [apply is_no_code_record | exact Hn].
      * assert (Hgc : good_code code).
        { split; [|now apply extract_trimmed in He].
          intros ->. discriminate. }
        rewrite (@submit_loop_submit ws i rest p w e code He)
          by (rewrite Es; discriminate).
        destruct (submit_request sch (fst w) _) as [[h|ex] s'].
        -- destruct (IH (S i)
                      {| request_ids := request_ids p ++ [(h, i, code)];
                         entries := entries p ++ [e];
                         results := results p |}
                      (s', snd w ++ [Submit code]))
             as (codes & Ht & Hg & Hp).
           exists (code :: codes). split; [|split].
           ++ rewrite Ht. cbn [snd map]. now rewrite <- app_assoc.
           ++ now constructor.
           ++ intros p' H. destruct (Hp p' H) as [Hids Hrs].
              cbn [request_ids results] in *. split; [|exact Hrs].
              rewrite Hids, map_app, <- app_assoc. reflexivity.
        -- exists [code]. cbn [fst snd map]. split; [reflexivity|]. split.
           ++ constructor; [exact Hgc|constructor].
           ++ intros p' H. discriminate.
    + rewrite (submit_loop_raise ws i rest p w e He).
      exists []. cbn [fst snd map]. rewrite app_nil_r.
      split; [reflexivity|]. split; [constructor|].
      intros p' H. discriminate.
  - cbn [submit_loop]. apply IH.
Qed.



(** The body of [try], step by step. *)
Lemma body_eq (file : option (list line)) (max_entries : option Z)
    (ws : str) (w : world sch) :
  body file max_entries ws w =
  match file with
  | None => (Raise OSError, w)
  | Some ls =>
      match submit_loop ws 0 (take_lines max_entries ls)
              {| request_ids := []; entries := []; results := [] |} w with
      | (Raise ex, w') => (Raise ex, w')
      | (Ok p, w') =>
          match request_ids p with
          | [] => (Ok (results p), w')
          | ids =>
              match get_all_request_outputs sch (fst w')
                      (map (fun r => fst (fst r)) ids) with
              | (Ok outs, s') =>
                  (collect_loop sch (entries p) (combine ids outs)
                     (results p),
                   (s', snd w' ++ [GetAll (length ids)]))
              | (Raise ex, s') =>
                  (Raise ex, (s', snd w' ++ [GetAll (length ids)]))
              end
          end
      end
  end.
Proof.
  unfold body. unfold bind at 1, lift. destruct file as [ls|]; [|reflexivity].
  unfold bind at 1.
  destruct (submit_loop ws 0 (take_lines max_entries ls) _ w)
    as [[p|ex] w']; [|reflexivity].
  destruct (request_ids p) as [|id ids]; [reflexivity|].
  unfold bind, get_all, lift. rewrite length_map.
  destruct (get_all_request_outputs sch (fst w') _) as [[outs|ex] s'];
    reflexivity.
Qed.

Lemma process_eq (file : option (list line)) (max_entries : option Z)
    (ws : str) (s0 : sched_state sch) :
  process_jsonl_file sch true file max_entries ws s0
  = (fst (body file max_entries ws (s0, [])),
     snd (snd (body file max_entries ws (s0, []))) ++ [Close]).
Proof.
  unfold process_jsonl_file, try_finally, close.
  destruct (body file max_entries ws (s0, [])) as [r w]. reflexivity.
Qed.

(** The calls of a run: the submissions, then at most one wait for all
    of them, then the closing. *)
Lemma process_trace (file : option (list line)) (max_entries : option Z)
    (ws : str) (s0 : sched_state sch) :
  exists codes,
    Forall good_code codes
    /\ (snd (process_jsonl_file sch true file max_entries ws s0)
        = map Submit codes ++ [Close]
        \/ (codes <> []
            /\ snd (process_jsonl_file sch true file max_entries ws s0)
               = map Submit codes ++ [GetAll (length codes); Close])).
Proof.
  rewrite process_eq, body_eq. cbn [snd].
  destruct file as [ls|].
  - destruct (submit_loop_trace ws (take_lines max_entries ls) 0
                {| request_ids := []; entries := []; results := [] |}
                (s0, [])) as (codes & Ht & Hg & Hp).
    exists codes. split; [exact Hg|].
    destruct (submit_loop ws 0 (take_lines max_entries ls) _ (s0, []))
      as [[p|ex] w']; cbn [fst snd app] in *.
    + destruct (Hp p eq_refl) as [Hids _]. cbn [request_ids map app] in Hids.
      destruct (request_ids p) as [|id ids] eqn:Ei.
      * left. cbn [snd]. now rewrite Ht.
      * right. assert (Hl : length (id :: ids) = length codes)
          by (rewrite <- Hids; now rewrite length_map).
        split; [destruct codes; [discriminate Hl | discriminate]|].
        destruct (get_all_request_outputs sch (fst w') _)
          as [[outs|ex] s']; cbn [snd]; rewrite Ht, Hl, <- app_assoc;
          reflexivity.
    + left. cbn [snd]. now rewrite Ht.
  - exists []. split; [constructor|]. left. reflexivity.
Qed.


End WithScheduler.

End TraceFacts.

(** ** Runs that stop early *)

Module AbortFacts.
Import Py Verifier Batch PyFacts Spec Notions BatchSpec BatchFacts TraceFacts.

Section WithScheduler.

Variable sch : scheduler.
Variable outcome_of : sched_state sch -> handle sch -> output.
Hypothesis sch_answers : answers sch outcome_of.



Lemma parsed_length (lines : list line) :
  length (parsed lines) <= length lines.
Proof.
  induction lines as [|[e|] rest IH]; cbn [parsed length]; lia.
Qed.

Lemma parsed_length_malformed (lines : list line) :
  In None lines -> length (parsed lines) < length lines.
Proof.
  induction lines as [|[e|] rest IH]; intro H; cbn [parsed length].
  - contradiction.
  - destruct H as [H|H]; [discriminate|]. apply IH in H. lia.
  - pose proof (parsed_length rest). lia.
Qed.

(** The first loop on any lines whose entries extract: it keeps the
    entries of the lines that parse, and goes on with the lines that
    follow. *)
Lemma submit_loop_any_app (ws : str) (pre rest : list line) :
  Forall extracts (parsed pre) ->
  forall i (p : pending sch) (w : world sch),
  exists p1 w1 ids,
    submit_loop ws i (pre ++ rest) p w
    = submit_loop ws (i + length pre) rest p1 w1
    /\ entries p1 = entries p ++ parsed pre
    /\ request_ids p1 = request_ids p ++ ids.
Proof.
  induction pre as [|[e|] pre IH]; intros Hes i p w.
  - exists p, w, []. cbn [app length parsed].
    rewrite Nat.add_0_r, !app_nil_r. auto.
  - change (@cons line (Some e) pre)
      with (@cons (option entry) (Some e) pre).
    cbn [parsed] in Hes. inversion Hes as [|e' es' [c He] Hes']; subst.
    cbn [app length parsed].
    change (@cons line) with (@cons (option entry)).
    replace (i + S (length pre)) with (S i + length pre) by lia.
    destruct (strip c) as [|c0 l0] eqn:Es.
    + rewrite (submit_loop_no_code ws i (pre ++ rest) p w e He Es).
      destruct (IH Hes' (S i)
                  {| request_ids := request_ids p;
                     entries := entries p ++ [e];
                     results := results p ++ [no_code_record e i] |} w)
        as (p1 & w1 & ids & Hl & Hents & Hids).
      exists p1, w1, ids. cbn [entries request_ids] in *.
      rewrite Hl, Hents, Hids, <- app_assoc. auto.
    + rewrite (@submit_loop_submit sch ws i (pre ++ rest) p w e c He)
        by (rewrite Es; discriminate).
      destruct sch_answers as [Hsub _].
      destruct (Hsub (fst w) {| req_code := c; req_ast := false;
                                req_tactics := true;
                                req_lean_workspace := ws |})
        as (h & s' & Esub).
      rewrite Esub.
      destruct (IH Hes' (S i)
                  {| request_ids := request_ids p ++ [(h, i, c)];
                     entries := entries p ++ [e];
                     results := results p |} (s', snd w ++ [Submit c]))
        as (p1 & w1 & ids & Hl & Hents & Hids).
      exists p1, w1, ((h, i, c) :: ids). cbn [entries request_ids] in *.
      rewrite Hl, Hents, Hids, <- !app_assoc. auto.
  - cbn [app length parsed submit_loop] in *.
    replace (i + S (length pre)) with (S i + length pre) by lia.
    apply IH. exact Hes.
Qed.

(** The second loop raises as soon as one request carries a position
    beyond the entries. *)
Lemma collect_loop_index_error (ents : list entry) :
  forall (pairs : list ((handle sch * nat * str) * output)) rs h i c o,
    In ((h, i, c), o) pairs -> nth_error ents i = None ->
    collect_loop sch ents pairs rs = Raise IndexError.
Proof.
  induction pairs as [|[[[h0 i0] c0] o0] pairs IH];
    intros rs h i c o Hin Hn; [contradiction|].
  cbn [collect_loop]. destruct (nth_error ents i0) as [e0|] eqn:E0;
    [|reflexivity].
  destruct Hin as [Hin|Hin].
  - inversion Hin; subst. congruence.
  - now apply IH with h i c o.
Qed.

Lemma in_combine_map (A B : Type) (f : A -> B) (l : list A) (x : A) :
  In x l -> In (x, f x) (combine l (map f l)).
Proof.
  induction l as [|y l IH]; intro H; [contradiction|].
  destruct H as [->|H]; [now left | right; now apply IH].
Qed.

(** After a line that does not parse, a last line with code makes the
    run raise. *)
Lemma process_malformed_before_last (file : list line)
    (max_entries : option Z) (ws : str) (s0 : sched_state sch)
    (pre : list line) (e : entry) :
  take_lines max_entries file = pre ++ [Some e] ->
  In None pre ->
  Forall extracts (parsed pre) -> extracts e -> has_code e = true ->
  fst (process_jsonl_file sch true (Some file) max_entries ws s0)
  = Raise IndexError.
Proof.
  intros Hf Hin Hes [c He] Hc. unfold has_code in Hc.
  rewrite (code_of_ok _ He) in Hc.
  rewrite process_eq, body_eq, Hf. cbn [fst].
  destruct (submit_loop_any_app ws pre [Some e] Hes 0
              {| request_ids := []; entries := []; results := [] |}
              (s0, [])) as (p1 & w1 & ids & Hl & Hents & Hids).
  rewrite Hl. cbn [Nat.add entries request_ids app] in *.
  change (@cons line) with (@cons (option entry)).
  rewrite (@submit_loop_submit sch ws (length pre) (@nil (option entry))
             p1 w1 e c He)
    by (destruct (strip c); [discriminate | discriminate]).
  destruct sch_answers as [Hsub Hget].
  destruct (Hsub (fst w1) {| req_code := c; req_ast := false;
                             req_tactics := true;
                             req_lean_workspace := ws |})
    as (h & s' & Esub).
  rewrite Esub. cbn [submit_loop]. unfold ret.
  cbn [request_ids entries results fst snd].
  destruct (request_ids p1 ++ [(h, length pre, c)]) as [|id l] eqn:El.
  { apply app_eq_nil in El. destruct El; discriminate. }
  rewrite <- El.
  destruct (Hget s' (map (fun r => fst (fst r))
                         (request_ids p1 ++ [(h, length pre, c)])))
    as (s2 & Eg).
  rewrite Eg, map_map. cbn [fst].
  apply collect_loop_index_error
    with (h := h) (i := length pre) (c := c) (o := outcome_of s' h).
  - apply (in_combine_map (fun r => outcome_of s' (fst (fst r)))
             (request_ids p1 ++ [(h, length pre, c)]) (h, length pre, c)).
    apply in_or_app. right. now left.
  - apply nth_error_None. rewrite Hents, length_app. cbn [length].
    apply parsed_length_malformed in Hin. lia.
Qed.

End WithScheduler.

End AbortFacts.

(** ** Runs on any lines *)

Module LineFacts.
Import Py Verifier Batch PyFacts Spec Notions BatchSpec BatchFacts TraceFacts.
Import AbortFacts.

Lemma numbered_lines_parsed (es : list entry) :
  forall i, numbered_lines i (map Some es) = numbered i es.
Proof.
  induction es as [|e es IH]; intro i; [reflexivity|].
  cbn [map numbered_lines numbered]. now rewrite IH.
Qed.

Lemma numbered_lines_app (pre rest : list line) :
  forall i,
    numbered_lines i (pre ++ rest)
    = numbered_lines i pre ++ numbered_lines (i + length pre) rest.
Proof.
  induction pre as [|[e|] pre IH]; intro i; cbn [app numbered_lines length].
  - now rewrite Nat.add_0_r.
  - rewrite IH. now replace (i + S (length pre)) with (S i + length pre) by lia.
  - rewrite IH. now replace (i + S (length pre)) with (S i + length pre) by lia.
Qed.

Lemma with_code_shift (lines : list line) :
  forall i j,
    map (fun ie => code_of (snd ie)) (with_code (numbered_lines i lines))
    = map (fun ie => code_of (snd ie)) (with_code (numbered_lines j lines)).
Proof.
  induction lines as [|[e|] rest IH]; intros i j; cbn [numbered_lines].
  - reflexivity.
  - rewrite !with_code_cons. destruct (has_code e); cbn [map snd];
      now rewrite (IH (S i) (S j)).
  - apply IH.
Qed.

Lemma codes_of_app (pre rest : list line) :
  codes_of (pre ++ rest) = codes_of pre ++ codes_of rest.
Proof.
  unfold codes_of. rewrite numbered_lines_app. unfold with_code.
  rewrite filter_app, map_app. f_equal.
  apply (with_code_shift rest (0 + length pre) 0).
Qed.

Lemma calls_of_cons (c : str) (codes : list str) :
  calls_of (c :: codes)
  = map Submit (c :: codes) ++ [GetAll (length (c :: codes)); Close].
Proof. reflexivity. Qed.

Section WithScheduler.

Variable sch : scheduler.
Hypothesis submits :
  forall s rq, exists h s', submit_request sch s rq = (Ok h, s').

Lemma issue_step (s : sched_state sch) (rq : request) (rqs : list request) :
  exists h s',
    submit_request sch s rq = (Ok h, s')
    /\ issue sch s (rq :: rqs)
       = (h :: fst (issue sch s' rqs), snd (issue sch s' rqs)).
Proof.
  destruct (submits s rq) as (h & s' & E).
  exists h, s'. split; [exact E|]. cbn [issue]. rewrite E.
  destruct (issue sch s' rqs); reflexivity.
Qed.

Lemma issue_all (rqs : list request) :
  forall s, length (fst (issue sch s rqs)) = length rqs.
Proof.
  induction rqs as [|rq rqs IH]; intro s; [reflexivity|].
  destruct (issue_step s rq rqs) as (h & s' & _ & E). rewrite E.
  cbn [fst length]. now rewrite IH.
Qed.

(** The first loop on any lines whose entries extract: every entry with
    code is submitted, in the order of the lines and under the number of
    its line; the others get their record at once; the lines that do not
    parse leave nothing but a gap in the numbers. *)
Lemma submit_loop_lines (ws : str) (lines : list line) :
  Forall extracts (parsed lines) ->
  forall i (p : pending sch) s tr,
    let ies := numbered_lines i lines in
    let run := issue sch s (map (request_of ws) (with_code ies)) in
    submit_loop ws i lines p (s, tr)
    = (Ok {| request_ids :=
               request_ids p ++ map (@to_id sch)
                                    (combine (with_code ies) (fst run));
             entries := entries p ++ parsed lines;
             results :=
               results p
               ++ map (fun ie => no_code_record (snd ie) (fst ie))
                      (without_code ies) |},
       (snd run,
        tr ++ map (fun ie => Submit (code_of (snd ie))) (with_code ies))).
Proof.
  induction lines as [|[e|] rest IH]; intros Hes i p s tr; cbv zeta.
  - cbn. unfold ret. rewrite !app_nil_r. destruct p; reflexivity.
  - change (@cons line (Some e) rest)
      with (@cons (option entry) (Some e) rest).
    cbn [parsed] in Hes. inversion Hes as [|e' es' [c He] Hes']; subst.
    cbn [numbered_lines parsed].
    pose proof (code_of_ok _ He) as Hc.
    assert (Hh : has_code e = match strip c with [] => false | _ => true end)
      by (unfold has_code; now rewrite Hc).
    rewrite (with_code_cons i e), (without_code_cons i e), Hh.
    destruct (strip c) as [|c0 l0] eqn:Es; cbn [negb].
    + rewrite (submit_loop_no_code ws i rest p (s, tr) e He Es).
      rewrite (IH Hes'). cbv zeta.
      cbn [request_ids entries results map fst snd].
      rewrite <- !app_assoc. reflexivity.
    + rewrite (@submit_loop_submit sch ws i rest p (s, tr) e c He)
        by (rewrite Es; discriminate).
      cbn [map fst snd].
      destruct (issue_step s (request_of ws (i, e))
                  (map (request_of ws)
                       (with_code (numbered_lines (S i) rest))))
        as (h & s' & Esub & Eissue).
      rewrite Eissue. unfold request_of at 1 in Esub. cbn [snd] in Esub.
      rewrite Hc in Esub. rewrite Esub.
      rewrite (IH Hes'). cbv zeta.
      cbn [request_ids entries results map fst snd combine].
      unfold to_id at 2. cbn [fst snd]. rewrite Hc.
      rewrite <- !app_assoc. reflexivity.
  - cbn [parsed numbered_lines submit_loop] in *. now apply IH.
Qed.

(** A run on lines whose entries extract, on a scheduler that takes every
    submission: its calls, and its result as the second loop makes it of
    the answer to the one wait. *)
Lemma process_lines (file : list line) (max_entries : option Z)
    (ws : str) (s0 : sched_state sch) :
  let lines := take_lines max_entries file in
  let ies := with_code (numbered_lines 0 lines) in
  let run := issue sch s0 (map (request_of ws) ies) in
  let rs0 := map (fun ie => no_code_record (snd ie) (fst ie))
                 (without_code (numbered_lines 0 lines)) in
  Forall extracts (parsed lines) ->
  process_jsonl_file sch true (Some file) max_entries ws s0
  = (match ies with
     | [] => Ok rs0
     | _ :: _ =>
         match get_all_request_outputs sch (snd run) (fst run) with
         | (Ok outs, _) =>
             collect_loop sch (parsed lines)
               (combine (map (@to_id sch) (combine ies (fst run))) outs) rs0
         | (Raise ex, _) => Raise ex
         end
     end,
     calls_of (codes_of lines)).
Proof.
  cbv zeta. intro Hes. rewrite process_eq, body_eq.
  rewrite (submit_loop_lines ws _ Hes). cbv zeta.
  cbn [request_ids entries results app fst snd].
  unfold codes_of.
  set (lines := take_lines max_entries file) in *.
  set (ies := with_code (numbered_lines 0 lines)).
  pose proof (issue_all (map (request_of ws) ies) s0) as Hl.
  rewrite length_map in Hl.
  destruct (issue sch s0 (map (request_of ws) ies)) as [hs s1].
  cbn [fst snd] in *.
  destruct ies as [|ie ies']; cbn [length] in Hl.
  - destruct hs; [|discriminate]. reflexivity.
  - destruct hs as [|h hs]; [discriminate|].
    cbn [combine map].
    assert (Hm : map (fun r : handle sch * nat * str => fst (fst r))
                   (map (@to_id sch) (combine ies' hs)) = hs).
    { rewrite map_map. cbn [to_id fst snd].
      clear - Hl. injection Hl as Hl. revert hs Hl.
      induction ies' as [|x l IH]; intros [|h' hs] Hl; try discriminate;
        [reflexivity|].
      cbn [combine map snd]. f_equal. apply IH. now injection Hl. }
    cbn [fst to_id snd]. rewrite Hm. unfold calls_of. cbn [map].
    assert (Hlen : length (map (@to_id sch) (combine ies' hs))
                   = length (map (fun ie => code_of (snd ie)) ies')).
    { rewrite !length_map, length_combine. injection Hl as Hl.
      rewrite Hl. apply Nat.min_id. }
    cbn [length]. rewrite Hlen.
    destruct (get_all_request_outputs sch s1 (h :: hs)) as [[outs|ex] s2];
      cbn [fst snd app]; rewrite map_map, <- app_assoc; reflexivity.
Qed.

End WithScheduler.

End LineFacts.

(** ** The results file and the cap *)

Module OutputFacts.
Import Py Verifier Batch PyFacts Spec Notions SplitFacts FirstFacts Output.

Lemma occurs_single (c : char) (s : str) : occurs [c] s <-> In c s.
Proof.
  split.
  - intros (pre & post & ->). apply in_or_app. right. now left.
  - intro H. apply in_split in H. destruct H as (pre & post & ->).
    now exists pre, post.
Qed.

Lemma in_join (c : char) (sep : str) (parts : list str) :
  In c (join sep parts) -> In c sep \/ exists q, In q parts /\ In c q.
Proof.
  induction parts as [|p parts IH]; [contradiction|].
  destruct parts as [|p' parts].
  - intro H. right. exists p. split; [now left | exact H].
  - change (join sep (p :: p' :: parts))
      with (p ++ sep ++ join sep (p' :: parts)).
    intro H. apply in_app_or in H. destruct H as [H|H].
    + right. exists p. split; [now left | exact H].
    + apply in_app_or in H. destruct H as [H|H]; [now left|].
      destruct (IH H) as [H'|(q & Hq & Hc)]; [now left|].
      right. exists q. split; [now right | exact Hc].
Qed.

(** The pieces of [split] are parts of the text. *)
Lemma in_split_upto (c : char) (sep : str) (n : nat) :
  forall s q, In q (split_upto n sep s) -> In c q -> In c s.
Proof.
  induction n as [|n IH]; intros s q Hq Hc.
  - destruct Hq as [<-|[]]. exact Hc.
  - cbn [split_upto] in Hq.
    destruct (find sep s) as [[b a]|] eqn:F.
    + apply find_some in F. subst s. destruct Hq as [<-|Hq].
      * apply in_or_app. now left.
      * apply in_or_app. right. apply in_or_app. right.
        now apply (IH a q).
    + destruct Hq as [<-|[]]. exact Hc.
Qed.

Lemma basename_no_slash (p : str) : ~ occurs slash (basename p).
Proof.
  unfold basename. destruct (rfind slash p) as [[b a]|] eqn:R.
  - apply rfind_last in R; [|discriminate]. destruct R as [_ Hn]. exact Hn.
  - apply rfind_none_occurs in R; [exact R | discriminate].
Qed.

Lemma basename_dir (dir name : str) :
  ~ occurs slash name -> basename (dir ++ slash ++ name) = name.
Proof.
  intro Hn. unfold basename.
  assert (R : rfind slash (dir ++ slash ++ name) = Some (dir, name)).
  { apply rfind_last; [discriminate|]. split; [reflexivity | exact Hn]. }
  now rewrite R.
Qed.

Lemma basename_plain (name : str) :
  ~ occurs slash name -> basename name = name.
Proof.
  intro Hn. unfold basename.
  apply rfind_none_occurs in Hn; [|discriminate]. now rewrite Hn.
Qed.

Lemma replace_none (old new s : str) :
  old <> [] -> ~ occurs old s -> replace old new s = s.
Proof.
  intros Ho Hn. unfold replace. rewrite (split_eq Ho).
  apply rfind_none_occurs in Hn; [|exact Ho].
  apply rfind_none_find in Hn; [|exact Ho]. now rewrite Hn.
Qed.

Lemma replace_last (old new stem : str) :
  old <> [] -> first_occurrence old (stem ++ old) stem [] ->
  replace old new (stem ++ old) = stem ++ new.
Proof.
  intros Ho Hf. unfold replace. rewrite (split_eq Ho).
  rewrite <- (app_nil_r (stem ++ old)), <- app_assoc in Hf |- *.
  apply (find_first Ho) in Hf. rewrite Hf. rewrite (split_eq Ho).
  rewrite (find_nil Ho). cbn [join]. now rewrite app_nil_r.
Qed.

Lemma take_lines_prefix (max_entries : option Z) (lines : list line) :
  exists rest, lines = take_lines max_entries lines ++ rest.
Proof.
  unfold take_lines. destruct max_entries as [n|]; [|exists []; now rewrite app_nil_r].
  destruct (n =? 0)%Z; [exists []; now rewrite app_nil_r|].
  destruct (0 <? n)%Z; eexists; symmetry; apply firstn_skipn.
Qed.

Lemma take_lines_length (n : Z) (lines : list line) :
  Z.of_nat (length (take_lines (Some n) lines))
  = (if n =? 0 then Z.of_nat (length lines)
     else if 0 <? n then Z.min n (Z.of_nat (length lines))
     else Z.max 0 (Z.of_nat (length lines) + n))%Z.
Proof.
  unfold take_lines. destruct (Z.eqb_spec n 0); [reflexivity|].
  destruct (Z.ltb_spec 0 n); rewrite length_firstn; lia.
Qed.

End OutputFacts.

(** * The claims *)

Module Claims.
Import Py Re Verifier Batch PyFacts Spec BatchSpec Sample Notions.
Import ReFacts CountFacts ExtractFacts SplitFacts FenceFacts SelectFacts.
Import BatchFacts LineFacts Extract.

(** C1, as stated, fails: in the skeleton [theorem t : P := by sorry] the
    token [sorry] does not follow the assignment operator, so the
    placeholder pattern does not occur in it and the extraction raises
    instead of returning the spliced proof. *)
Lemma by_sorry_skeleton_raises :
  extract_lean_code (VStr block) skeleton_by_sorry = Raise ValueError
  /\ extract_lean_code (VStr block) skeleton_by_sorry <> Ok proof_exact_h.
Proof. split; [vm_compute; reflexivity | vm_compute; discriminate]. Qed.

(** C1, amended: for the skeleton [theorem t : P := sorry], which has one
    placeholder, and a response whose text has no section marker and
    whose last strict-dialect block holds [theorem t : P := by exact h],
    [extract_lean_code] returns [theorem t : P := by exact h]. *)
Theorem roundtrip_splice (response : value) (pre post : str) :
  response_text response = VStr (pre ++ block ++ post) ->
  ~ occurs marker (pre ++ block ++ post) ->
  ~ occurs fence_lean4 (fence ++ post) ->
  extract_lean_code response skeleton_sorry = Ok proof_exact_h.
Proof.
  intros Ht Hm Hf. unfold extract_lean_code, scan. rewrite Ht.
  replace (pre ++ block ++ post)
    with (pre ++ fence_lean4 ++ ([nl] ++ proof_exact_h ++ [nl])
              ++ fence ++ post) in *
    by (unfold block; now rewrite <- !app_assoc).
  rewrite extracted_last_block; try assumption.
  - vm_compute. reflexivity.
  - unfold proof_exact_h. vm_compute.
    repeat (constructor; [discriminate|]). constructor.
  - vm_compute. discriminate.
Qed.

Lemma roundtrip_splice_witness :
  extract_lean_code (VStr block) skeleton_sorry = Ok proof_exact_h.
Proof.
  apply (@roundtrip_splice (VStr block) [] []).
  - cbn [response_text app]. now rewrite app_nil_r.
  - apply contains_false_iff. vm_compute. reflexivity.
  - apply contains_false_iff. vm_compute. reflexivity.
Defined.

(** C2: when a non-empty excerpt with an assignment operator has been
    extracted and the skeleton holds no placeholder, or two or more,
    [extract_lean_code] raises; it returns neither the skeleton nor a
    splice at the last placeholder. *)
Theorem ambiguous_placeholders_raise (response : value) (header : str) :
  extracted_code (response_text response) <> [] ->
  has_assign (extracted_code (response_text response)) ->
  count_placeholders header <> 1 ->
  extract_lean_code response header = Raise ValueError.
Proof.
  intros Hne Ha Hn. unfold extract_lean_code, scan.
  destruct (extracted_code (response_text response)) as [|c code] eqn:E;
    [congruence|].
  now apply splice_ambiguous.
Qed.

Lemma ambiguous_placeholders_raise_witness :
  extract_lean_code (VStr block) skeleton_two = Raise ValueError
  /\ extract_lean_code (VStr block) skeleton_by_sorry = Raise ValueError.
Proof.
  split; apply ambiguous_placeholders_raise;
    try (vm_compute; discriminate);
    apply contains_iff; vm_compute; reflexivity.
Defined.

(** C3, as stated, fails: when the last turn of the sequence is the empty
    text, the function scans that empty text and not the last non-empty
    turn before it. *)
Lemma empty_last_turn_is_scanned :
  extract_lean_code (VList [VStr block; VStr []]) skeleton_sorry = Ok []
  /\ scan (last_nonempty_turn [VStr block; VStr []]) skeleton_sorry
     = Ok proof_exact_h
  /\ extract_lean_code (VList [VStr block; VStr []]) skeleton_sorry
     <> scan (last_nonempty_turn [VStr block; VStr []]) skeleton_sorry.
Proof.
  repeat split; try (vm_compute; reflexivity). vm_compute. discriminate.
Qed.

(** C3, amended: for a sequence of turns [extract_lean_code] scans its
    last turn, empty or not (and the empty text for the empty sequence);
    for a response that is not a sequence it scans the response coerced
    to text. *)
Theorem scans_last_turn (turns : list value) (t : value) (s repr : str)
    (header : str) :
  extract_lean_code (VList (turns ++ [t])) header = scan t header
  /\ extract_lean_code (VList []) header = scan (VStr []) header
  /\ extract_lean_code (VStr s) header = scan (VStr s) header
  /\ extract_lean_code (VOther repr) header = scan (VStr repr) header.
Proof.
  repeat split. unfold extract_lean_code. cbn [response_text].
  now rewrite last_last.
Qed.

(** C7: when the extracted excerpt is not empty and has no assignment
    operator, [extract_lean_code] returns the skeleton, trimmed, and
    nothing is spliced into it. *)
Theorem no_assign_returns_skeleton (response : value) (header : str) :
  extracted_code (response_text response) <> [] ->
  ~ has_assign (extracted_code (response_text response)) ->
  extract_lean_code response header = Ok (strip header).
Proof.
  intros Hne Ha. unfold extract_lean_code, scan.
  destruct (extracted_code (response_text response)) as [|c code] eqn:E;
    [congruence|].
  now apply splice_without_assign.
Qed.

Lemma no_assign_returns_skeleton_witness :
  extract_lean_code (VStr block_without_assign) skeleton_padded
  = Ok skeleton_sorry.
Proof.
  change (Ok skeleton_sorry) with (Ok (A := str) (strip skeleton_padded)).
  apply no_assign_returns_skeleton.
  - vm_compute. discriminate.
  - apply contains_false_iff. vm_compute. reflexivity.
Defined.

(** C5: the status of an outcome is chosen in a fixed order: an
    infrastructure-error text gives SYSTEM_ERROR, also when the outcome is
    complete; otherwise a complete outcome gives COMPLETE; otherwise a
    passing outcome gives PASS_WITH_ISSUES; otherwise the status is FAIL.
    This is the status the record of the outcome carries. *)
Theorem classify_precedence (o : output) :
  (error_text_present o -> classify o = SYSTEM_ERROR)
  /\ (~ error_text_present o -> out_complete o = true ->
      classify o = COMPLETE)
  /\ (~ error_text_present o -> out_complete o = false ->
      out_pass o = true -> classify o = PASS_WITH_ISSUES)
  /\ (~ error_text_present o -> out_complete o = false ->
      out_pass o = false -> classify o = FAIL)
  /\ (forall e i code,
        verification_status (verified_record e i code o) = classify o).
Proof.
  assert (Hp : has_system_errors o = true <-> error_text_present o).
  { unfold has_system_errors, error_text_present.
    destruct (out_system_errors o) as [[|c t]|]; split; intro H;
      try discriminate; try reflexivity.
    - destruct H as (t & Ht & Hne). inversion Ht. congruence.
    - eexists. split; [reflexivity | discriminate].
    - destruct H as (t & Ht & _). discriminate. }
  assert (Hn : ~ error_text_present o -> has_system_errors o = false).
  { intro H. destruct (has_system_errors o); [|reflexivity].
    exfalso. now apply H, Hp. }
  unfold classify. split; [|split; [|split; [|split]]].
  - intro H. apply Hp in H. now rewrite H.
  - intros H Hc. now rewrite (Hn H), Hc.
  - intros H Hc Hpass. now rewrite (Hn H), Hc, Hpass.
  - intros H Hc Hpass. now rewrite (Hn H), Hc, Hpass.
  - reflexivity.
Qed.

Lemma classify_precedence_witness :
  out_complete crashed_complete = true
  /\ classify crashed_complete = SYSTEM_ERROR.
Proof.
  split; [reflexivity|].
  apply (proj1 (classify_precedence crashed_complete)).
  eexists. split; [reflexivity | discriminate].
Defined.

(** C9: once the scheduler has been made, every run of the batch closes it
    exactly once, whether the run returns its results or raises, and
    whatever the scheduler answers or raises. *)
Theorem scheduler_closed_once (sch : scheduler) (file : option (list line))
    (max_entries : option Z) (ws : str) (s0 : sched_state sch) :
  closes (snd (process_jsonl_file sch true file max_entries ws s0)) = 1.
Proof.
  unfold process_jsonl_file, try_finally, close.
  pose proof (body_closes file max_entries ws (s0, [])) as H.
  destruct (body file max_entries ws (s0, [])) as [r w].
  cbn [snd] in *. rewrite closes_app, H. reflexivity.
Qed.



(** C6, as stated, fails under either reading of the order of preference.
    Behind the marker of [empty_marked_then_block] an empty strict-dialect
    block opens, so rule (i) applies and its excerpt is empty; the code
    goes on to the last strict-dialect block and returns its content.  In
    [empty_strict_then_loose] the last strict-dialect block is empty and
    a loose-dialect block with content follows, so the first rule with an
    excerpt that is not empty is rule (iii); the code does not try it
    and returns the empty text. *)
Lemma preference_order_fails :
  (first_applicable empty_marked_then_block []
   /\ extracted_code (VStr empty_marked_then_block) = proof_exact_h)
  /\ (first_nonempty empty_strict_then_loose (of_string "exact h")
      /\ extracted_code (VStr empty_strict_then_loose) = []
      /\ extract_lean_code (VStr empty_strict_then_loose) skeleton_sorry
         = Ok []).
Proof.
  split; split.
  - left. apply marker_rule_rfind. eexists. eexists.
    split; [vm_compute; reflexivity|]. split; vm_compute; reflexivity.
  - vm_compute. reflexivity.
  - split; [discriminate|]. right. right. split; [|split].
    + intros c Hc. exfalso. revert Hc.
      apply no_marker_rule_rfind. vm_compute. reflexivity.
    + intros c Hc. apply strict_rule_rfind in Hc.
      destruct Hc as (b & a & Hr & ->).
      vm_compute in Hr. inversion Hr; subst. vm_compute. reflexivity.
    + apply loose_rule_rfind. eexists. eexists.
      split; vm_compute; reflexivity.
  - split; vm_compute; reflexivity.
Qed.

(** C6, amended: the excerpt is chosen by three rules: (i) the block that
    opens, after white space, behind the last section marker, when its
    excerpt is not empty; (ii) when rule (i) does not apply or gives the
    empty excerpt, the last strict-dialect block of the text, whatever
    its excerpt; (iii) only when the text has no strict-dialect fence at
    all, the last loose-dialect block.  When none of the rules applies,
    [extract_lean_code] returns the empty text, and the batch gives the
    entry a record with status NO_CODE_FOUND and time 0 without
    submitting anything. *)
Theorem fence_selection (t : str) :
  (forall code, marker_rule t code -> code <> [] ->
     extracted_code (VStr t) = code)
  /\ (forall code, (forall c, marker_rule t c -> c = []) ->
       strict_rule t code -> extracted_code (VStr t) = code)
  /\ (forall code, (forall c, marker_rule t c -> c = []) ->
       (forall c, ~ strict_rule t c) -> loose_rule t code ->
       extracted_code (VStr t) = code)
  /\ ((forall c, ~ marker_rule t c) -> (forall c, ~ strict_rule t c) ->
      (forall c, ~ loose_rule t c) ->
      forall e, response_text (entry_response e) = VStr t ->
        extract_lean_code (entry_response e) (entry_formal_statement e)
        = Ok []
        /\ (forall sch ws i rest (p : pending sch) (w : world sch),
              submit_loop ws i (Some e :: rest) p w
              = submit_loop ws (S i) rest
                  {| request_ids := request_ids p;
                     entries := entries p ++ [e];
                     results := results p ++ [no_code_record e i] |} w)
        /\ (forall sch ws (s0 : sched_state sch),
              process_jsonl_file sch true (Some [Some e]) None ws s0
              = (Ok [no_code_record e 0], [Close]))
        /\ (forall i,
              verification_status (no_code_record e i) = NO_CODE_FOUND
              /\ verify_time (no_code_record e i) = 0%Q)).
Proof.
  split; [|split; [|split]].
  - intros code Hr Hne. cbn [extracted_code].
    rewrite (after_marker_code_rule Hr).
    destruct code; [congruence | reflexivity].
  - intros code Hm Hs. cbn [extracted_code].
    rewrite (after_marker_code_no_rule Hm). now apply last_fence_code_strict.
  - intros code Hm Hn Hl. cbn [extracted_code].
    rewrite (after_marker_code_no_rule Hm). now apply last_fence_code_loose.
  - intros Hm Hs Hl e He.
    assert (Hx : extract_lean_code (entry_response e)
                   (entry_formal_statement e) = Ok []).
    { unfold extract_lean_code, scan. rewrite He. cbn [extracted_code].
      rewrite after_marker_code_no_rule
        by (intros c Hc; now apply Hm in Hc).
      now rewrite last_fence_code_none. }
    split; [exact Hx|]. split; [|split].
    + intros sch ws i rest p w. now apply submit_loop_no_code with (c := []).
    + intros sch ws s0.
      unfold process_jsonl_file, try_finally, close, body.
      unfold bind at 1, lift. unfold bind at 1. cbn [take_lines].
      rewrite (@submit_loop_no_code sch ws 0 [] _ _ e [] Hx eq_refl).
      reflexivity.
    + intro i. split; reflexivity.
Qed.

Lemma fence_selection_witness :
  extracted_code (VStr marked_response) = proof_exact_h
  /\ extracted_code (VStr block) = proof_exact_h
  /\ extracted_code (VStr loose_block) = of_string "exact h"
  /\ process_jsonl_file counting true (Some [Some entry_without_code]) None
       workspace 0
     = (Ok [no_code_record entry_without_code 0], [Close]).
Proof.
  split; [|split; [|split]].
  - apply (proj1 (fence_selection marked_response)).
    + apply marker_rule_rfind. eexists. eexists.
      split; [vm_compute; reflexivity|].
      split; vm_compute; reflexivity.
    + vm_compute. discriminate.
  - apply (proj1 (proj2 (fence_selection block))).
    + intros c Hc. exfalso. revert Hc.
      apply no_marker_rule_rfind. vm_compute. reflexivity.
    + apply strict_rule_rfind. eexists. eexists.
      split; vm_compute; reflexivity.
  - apply (proj1 (proj2 (proj2 (fence_selection loose_block)))).
    + intros c Hc. exfalso. revert Hc.
      apply no_marker_rule_rfind. vm_compute. reflexivity.
    + apply no_strict_rule_rfind. vm_compute. reflexivity.
    + apply loose_rule_rfind. eexists. eexists.
      split; vm_compute; reflexivity.
  - apply (proj2 (proj2 (proj2 (fence_selection no_proof_text)))
             (@no_marker_rule_rfind no_proof_text eq_refl)
             (@no_strict_rule_rfind no_proof_text eq_refl)
             (@no_loose_rule_rfind no_proof_text eq_refl)
             entry_without_code eq_refl).
Defined.

(** C4, as stated, fails: the record of an entry without code is written
    during submission and the records of the verified entries only after
    all outcomes are in, so an entry without code that follows an entry
    with code comes first in the results. *)
Lemma results_out_of_input_order :
  fst (process_jsonl_file counting true
         (Some [Some entry_with_code; Some entry_without_code]) None
         workspace 0)
  = Ok [no_code_record entry_without_code 1;
        verified_record entry_with_code 0 proof_exact_h
          (complete_after 0)]
  /\ ~ same_order [entry_with_code; entry_without_code]
        [no_code_record entry_without_code 1;
         verified_record entry_with_code 0 proof_exact_h
           (complete_after 0)].
Proof.
  split; [vm_compute; reflexivity|].
  unfold same_order. vm_compute. discriminate.
Qed.

(** C4, amended: for a batch whose lines all parse and extract, on a
    scheduler that answers the wait with the outcomes of the handles it
    is asked for, the result list holds the NO_CODE_FOUND records of the
    entries without code, in the order of the input, and after them the
    records of the entries with code, in the order of the input; each
    record is built from its own entry and, for a verified entry, from the
    outcome of the handle issued for that entry, whatever the order in
    which the scheduler completes the jobs. *)
Theorem parsed_batch_results (sch : scheduler)
    (outcome_of : sched_state sch -> handle sch -> output)
    (file : list line) (max_entries : option Z) (ws : str)
    (s0 : sched_state sch) (es : list entry) :
  answers sch outcome_of ->
  take_lines max_entries file = map Some es ->
  Forall extracts es ->
  fst (process_jsonl_file sch true (Some file) max_entries ws s0)
  = Ok (expected_results sch outcome_of ws s0 es).
Proof. intros Ha Hf He. now apply process_parsed. Qed.

Lemma parsed_batch_results_witness :
  fst (process_jsonl_file reversing true
         (Some [Some entry_with_code; Some entry_without_code;
                Some second_entry_with_code]) None workspace [])
  = Ok (expected_results reversing outcome_at_rank workspace []
          [entry_with_code; entry_without_code; second_entry_with_code])
  /\ expected_results reversing outcome_at_rank workspace []
       [entry_with_code; entry_without_code; second_entry_with_code]
     = [no_code_record entry_without_code 1;
        verified_record entry_with_code 0 proof_exact_h
          (complete_after 1);
        verified_record second_entry_with_code 2 proof_simp
          (complete_after 0)].
Proof.
  split; [|vm_compute; reflexivity].
  apply parsed_batch_results.
  - split; intros; eexists; try eexists; reflexivity.
  - reflexivity.
  - repeat constructor; eexists; vm_compute; reflexivity.
Defined.

(** C8 does not hold of the code: the second loop looks an entry up by the
    number of its line, in a list that holds the parsed entries only.
    After a line that does not parse, the batch of one entry with code
    raises IndexError and returns no record at all; and when the look-up
    succeeds, the record of the outcome is given to a later entry. *)
Theorem malformed_line_breaks_batch :
  process_jsonl_file counting true
    (Some [None; Some entry_with_code]) None workspace 0
  = (Raise IndexError, [Submit proof_exact_h; GetAll 1; Close])
  /\ fst (process_jsonl_file counting true
            (Some [None; Some entry_with_code; Some entry_without_code])
            None workspace 0)
     = Ok [no_code_record entry_without_code 2;
           verified_record entry_without_code 1 proof_exact_h
             (complete_after 0)].
Proof. split; vm_compute; reflexivity. Qed.

End Claims.

(** * Further properties of the code *)

Module Extras.
Import Py Re Verifier Batch PyFacts Spec Notions BatchSpec Sample Output.
Import ReFacts CountFacts ExtractFacts SplitFacts FenceFacts SelectFacts.
Import BatchFacts StripFacts FirstFacts SpliceFacts DiagFacts TraceFacts.
Import AbortFacts LineFacts OutputFacts Extract.

(** X1: whatever [extract_lean_code] returns neither begins nor ends with
    white space, so trimming it again, as line 138 does, changes
    nothing. *)
Theorem extracted_code_is_trimmed (response : value) (header c : str) :
  extract_lean_code response header = Ok c ->
  trimmed c /\ strip c = c.
Proof.
  intro H. apply extract_trimmed in H. split; [|exact H].
  now apply trimmed_strip.
Qed.

Lemma extracted_code_is_trimmed_witness :
  trimmed proof_exact_h /\ strip proof_exact_h = proof_exact_h.
Proof.
  apply (@extracted_code_is_trimmed (VStr block) skeleton_padded).
  vm_compute. reflexivity.
Defined.

(** X2: when [extract_lean_code] raises, and what.  It raises only when
    the excerpt is not empty.  With a skeleton that is a text it raises
    ValueError, exactly when the excerpt holds an assignment operator and
    the skeleton does not hold exactly one placeholder.  With a skeleton
    that is not a text it always raises then: TypeError when the excerpt
    holds an assignment operator (line 48), AttributeError when it holds
    none (line 41).  In every other case it returns. *)
Theorem extraction_raises_exactly (response header : value) (ex : exn) :
  extract_lean_code_any response header = Raise ex <->
  extracted_code (response_text response) <> []
  /\ ((exists h, header = VStr h /\ ex = ValueError
                 /\ has_assign (extracted_code (response_text response))
                 /\ count_placeholders h <> 1)
      \/ ((forall h, header <> VStr h) /\ ex = TypeError
          /\ has_assign (extracted_code (response_text response)))
      \/ ((forall h, header <> VStr h) /\ ex = AttributeError
          /\ ~ has_assign (extracted_code (response_text response)))).
Proof.
  set (code := extracted_code (response_text response)).
  assert (Hx : forall h, header = VStr h ->
             (extract_lean_code response h = Raise ex <->
              code <> [] /\ ex = ValueError /\ has_assign code
              /\ count_placeholders h <> 1)).
  { intros h _. unfold extract_lean_code, scan. fold code.
    destruct code as [|x c] eqn:E.
    - split; [discriminate|]. intros [H _]. congruence.
    - split.
      + intro H. apply splice_raises in H. destruct H as (-> & Ha & Hn).
        repeat split; auto. discriminate.
      + intros (_ & -> & Ha & Hn). now apply splice_ambiguous. }
  assert (Hy : (forall h, header <> VStr h) ->
             (extract_lean_code_any response header = Raise ex <->
              code <> []
              /\ ((ex = TypeError /\ has_assign code)
                  \/ (ex = AttributeError /\ ~ has_assign code)))).
  { intro Hh.
    assert (E : extract_lean_code_any response header
                = match code with
                  | [] => Ok []
                  | _ :: _ =>
                      match search proof_body_pattern code with
                      | None => Raise AttributeError
                      | Some _ => Raise TypeError
                      end
                  end).
    { destruct header as [h| |]; [now destruct (Hh h) | |];
        unfold extract_lean_code_any; fold code;
        destruct code; reflexivity. }
    rewrite E. destruct code as [|x c] eqn:Ec.
    - split; [discriminate|]. intros [H _]. congruence.
    - rewrite search_proof_body.
      destruct (find assign (x :: c)) as [[b a]|] eqn:F.
      + assert (Ha : has_assign (x :: c))
          by (exists b, a; now apply find_some).
        split.
        * intro H. inversion H. split; [discriminate|]. left. auto.
        * intros (_ & [[-> _]|[_ Hn]]); [reflexivity | contradiction].
      + assert (Hn : ~ has_assign (x :: c)).
        { intros (pre & post & Hp). rewrite Hp in F.
          now apply find_none_app in F. }
        split.
        * intro H. inversion H. split; [discriminate|]. right. auto.
        * intros (_ & [[_ Ha]|[-> _]]); [contradiction | reflexivity]. }
  destruct header as [h|l|r].
  - cbn [extract_lean_code_any]. rewrite (Hx h eq_refl). split.
    + intros (Hc & He & Ha & Hn). split; [exact Hc|]. left. now exists h.
    + intros (Hc & [(h' & Eh & He & Ha & Hn)|[(Hh & _)|(Hh & _)]]).
      * inversion Eh; subst. auto.
      * now destruct (Hh h).
      * now destruct (Hh h).
  - rewrite Hy by discriminate. split.
    + intros (Hc & [[He Ha]|[He Hn]]); (split; [exact Hc|]).
      * right. left. repeat split; auto. discriminate.
      * right. right. repeat split; auto. discriminate.
    + intros (Hc & [(h' & Eh & _)|[(_ & He & Ha)|(_ & He & Hn)]]);
        [discriminate | |]; (split; [exact Hc|]); auto.
  - rewrite Hy by discriminate. split.
    + intros (Hc & [[He Ha]|[He Hn]]); (split; [exact Hc|]).
      * right. left. repeat split; auto. discriminate.
      * right. right. repeat split; auto. discriminate.
    + intros (Hc & [(h' & Eh & _)|[(_ & He & Ha)|(_ & He & Hn)]]);
        [discriminate | |]; (split; [exact Hc|]); auto.
Qed.

(** X3: when the skeleton holds exactly one placeholder, the result is
    the skeleton with the placeholder replaced by the assignment
    operator, one space and the proof body, trimmed; the proof body is
    what follows the first assignment operator of the excerpt, trimmed.
    What stands before that operator in the excerpt is not used. *)
Theorem splice_into_placeholder (response : value)
    (b a pre w post : str) :
  first_occurrence assign (extracted_code (response_text response)) b a ->
  Forall (fun c => is_space c = true) w ->
  count_placeholders (pre ++ assign ++ w ++ sorry ++ post) = 1 ->
  extract_lean_code response (pre ++ assign ++ w ++ sorry ++ post)
  = Ok (strip (pre ++ of_string ":= " ++ strip a ++ post)).
Proof.
  intros Hf Hw Hc. apply find_first in Hf; [|discriminate].
  unfold extract_lean_code, scan.
  destruct (extracted_code (response_text response)) as [|x code] eqn:E.
  - discriminate.
  - now apply splice_one with b.
Qed.

Lemma splice_into_placeholder_witness :
  extract_lean_code (VStr block) skeleton_padded = Ok proof_exact_h.
Proof.
  change skeleton_padded
    with (of_string "  theorem t : P " ++ assign ++ of_string " " ++ sorry
            ++ [nl]).
  change (Ok proof_exact_h)
    with (Ok (A := str)
            (strip (of_string "  theorem t : P " ++ of_string ":= "
                      ++ strip (of_string " by exact h") ++ [nl]))).
  apply (@splice_into_placeholder (VStr block) (of_string "theorem t : P ")).
  - apply find_first; [discriminate|]. vm_compute. reflexivity.
  - repeat constructor.
  - vm_compute. reflexivity.
Defined.

(** X4: a strict-dialect block that is never closed is extracted all the
    same: without a marker in the text and without a backtick after the
    last fence-open, the excerpt is everything after that fence-open,
    trimmed. *)
Theorem unclosed_block_is_extracted (pre x : str) :
  Forall (fun c => c <> backtick) x ->
  ~ occurs marker (pre ++ fence_lean4 ++ x) ->
  extracted_code (VStr (pre ++ fence_lean4 ++ x)) = strip x.
Proof.
  intros Hx Hm. cbn [extracted_code]. rewrite after_marker_code_eq.
  apply (rfind_none_occurs marker_nonempty) in Hm. rewrite Hm.
  rewrite last_fence_code_eq.
  rewrite (rfind_single fence_lean4_nonempty fence_lean4_no_overlap).
  - rewrite up_to_fence_eq.
    change fence with (backtick :: [backtick; backtick]).
    now rewrite find_none_clean.
  - change fence_lean4 with (backtick :: tl fence_lean4).
    rewrite <- (app_nil_r x). apply rfind_clean; [assumption | reflexivity].
Qed.

Lemma unclosed_block_is_extracted_witness :
  extracted_code
    (VStr (of_string "Proof: " ++ fence_lean4 ++ [nl] ++ proof_exact_h))
  = proof_exact_h.
Proof.
  change proof_exact_h with (strip ([nl] ++ proof_exact_h)) at 2.
  apply unclosed_block_is_extracted.
  - vm_compute. repeat (constructor; [discriminate|]). constructor.
  - apply contains_false_iff. vm_compute. reflexivity.
Defined.

(** X5: [format_error_check] gives one of its three fixed texts exactly
    when the outcome has nothing to report; which one is decided by the
    status: the success text for COMPLETE, the issues text for
    PASS_WITH_ISSUES, and the unknown-failure text for FAIL and for
    SYSTEM_ERROR. *)
Theorem fixed_texts_exactly_when_clean (o : output) (st : status) :
  (format_error_check o st = success_text <-> st = COMPLETE /\ clean o)
  /\ (format_error_check o st = issues_text <->
      st = PASS_WITH_ISSUES /\ clean o)
  /\ (format_error_check o st = unknown_text <->
      (st = FAIL \/ st = SYSTEM_ERROR) /\ clean o).
Proof.
  assert (Hfix : forall t,
            t = success_text \/ t = issues_text \/ t = unknown_text ->
            format_error_check o st = t -> st <> NO_CODE_FOUND /\ clean o).
  { intros t Ht H. apply fixed_text_clean. rewrite H. exact Ht. }
  split; [|split]; split.
  - intro H. destruct (Hfix _ (or_introl eq_refl) H) as [Hst Hc].
    split; [|exact Hc]. rewrite (format_error_check_clean st Hc) in H.
    destruct st; try reflexivity; try congruence;
      vm_compute in H; discriminate.
  - intros [-> Hc]. now rewrite format_error_check_clean.
  - intro H. destruct (Hfix _ (or_intror (or_introl eq_refl)) H) as [Hst Hc].
    split; [|exact Hc]. rewrite (format_error_check_clean st Hc) in H.
    destruct st; try reflexivity; try congruence;
      vm_compute in H; discriminate.
  - intros [-> Hc]. now rewrite format_error_check_clean.
  - intro H. destruct (Hfix _ (or_intror (or_intror eq_refl)) H) as [Hst Hc].
    split; [|exact Hc]. rewrite (format_error_check_clean st Hc) in H.
    destruct st; auto; try congruence; vm_compute in H; discriminate.
  - intros [[-> | ->] Hc]; now rewrite format_error_check_clean.
Qed.

(** X6: for a verified entry the text of an infrastructure error comes
    first in the diagnostic text, in full, behind its label, whatever
    else the outcome reports. *)
Theorem system_errors_come_first (o : output) (st : status) (t : str) :
  out_system_errors o = Some t -> t <> [] -> st <> NO_CODE_FOUND ->
  exists tail,
    format_error_check o st = of_string "SYSTEM_ERRORS: " ++ t ++ tail.
Proof.
  intros Ho Ht Hst. unfold format_error_check. rewrite Ho.
  destruct t as [|c t]; [congruence|].
  destruct st; try congruence;
    cbn [app];
    match goal with
    | |- exists tail, join ?sep (?p :: ?rest) = _ =>
        destruct (join_head sep p rest) as [tail Hj]; exists tail;
        etransitivity; [exact Hj|]; now rewrite <- app_assoc
    end.
Qed.

Lemma system_errors_come_first_witness :
  exists tail,
    format_error_check crashed_complete (classify crashed_complete)
    = of_string "SYSTEM_ERRORS: " ++ of_string "Lean process timed out"
        ++ tail.
Proof.
  apply system_errors_come_first; [reflexivity | discriminate |].
  vm_compute. discriminate.
Defined.

(** X7: the errors (and the warnings) are shown one by one in their
    order, the k-th of them, counted from 0, under the number k + 1 with
    its own line, column and message. *)
Theorem details_are_numbered (label : str) (ms : list message) (k : nat)
    (m : message) :
  nth_error ms k = Some m ->
  nth_error (details label 0 ms) k
  = Some (label ++ of_string " " ++ decimal (k + 1)
            ++ of_string " (line " ++ msg_line m ++ of_string ", col "
            ++ msg_column m ++ of_string "): " ++ msg_data m)
  /\ length (details label 0 ms) = length ms.
Proof.
  intro H. split; [|apply details_length].
  now rewrite (details_nth label ms 0 k H).
Qed.

Lemma details_are_numbered_witness :
  nth_error
    (details (of_string "Error") 0
       [{| msg_line := of_string "1"; msg_column := of_string "0";
           msg_data := of_string "first" |};
        {| msg_line := of_string "u"; msg_column := of_string "u";
           msg_data := of_string "second" |}]) 1
  = Some (of_string "Error 2 (line u, col u): second").
Proof.
  refine (proj1 (@details_are_numbered (of_string "Error") _ 1
                   {| msg_line := of_string "u"; msg_column := of_string "u";
                      msg_data := of_string "second" |} _)).
  reflexivity.
Defined.

(** X8: on every run, whatever the scheduler answers or raises, the
    calls on it are the submissions, then at most one wait, which is
    made only when there was a submission and asks for as many handles
    as there were submissions, and last the closing; nothing is
    submitted after the wait or after the closing. *)
Theorem calls_are_submits_wait_close (sch : scheduler)
    (file : option (list line)) (max_entries : option Z) (ws : str)
    (s0 : sched_state sch) :
  exists codes,
    snd (process_jsonl_file sch true file max_entries ws s0)
    = map Submit codes ++ [Close]
    \/ (codes <> []
        /\ snd (process_jsonl_file sch true file max_entries ws s0)
           = map Submit codes ++ [GetAll (length codes); Close]).
Proof.
  destruct (process_trace sch file max_entries ws s0) as (codes & _ & H).
  now exists codes.
Qed.

(** X9: no empty code is ever submitted, and every submitted code is
    trimmed. *)
Theorem submitted_code_is_good (sch : scheduler)
    (file : option (list line)) (max_entries : option Z) (ws : str)
    (s0 : sched_state sch) (c : str) :
  In (Submit c) (snd (process_jsonl_file sch true file max_entries ws s0)) ->
  c <> [] /\ trimmed c.
Proof.
  destruct (process_trace sch file max_entries ws s0) as (codes & Hg & H).
  intro Hin.
  assert (Hc : In c codes).
  { destruct H as [H|[_ H]]; rewrite H in Hin; apply in_app_or in Hin;
      destruct Hin as [Hin|Hin].
    - apply in_map_iff in Hin. destruct Hin as (x & Hx & Hin).
      inversion Hx; subst. exact Hin.
    - destruct Hin as [Hin|[]]. discriminate.
    - apply in_map_iff in Hin. destruct Hin as (x & Hx & Hin).
      inversion Hx; subst. exact Hin.
    - destruct Hin as [Hin|[Hin|[]]]; discriminate. }
  rewrite Forall_forall in Hg. destruct (Hg c Hc) as [Hne Hs].
  split; [exact Hne | now apply trimmed_strip].
Qed.

Lemma submitted_code_is_good_witness :
  proof_exact_h <> [] /\ trimmed proof_exact_h.
Proof.
  apply (@submitted_code_is_good counting
           (Some [Some entry_without_code; Some entry_with_code]) None
           workspace 0).
  vm_compute. left. reflexivity.
Defined.







(** X13: when a line under the cap does not parse and the last line under
    the cap is an entry with code, the run goes through the whole first
    loop, submits the code of every entry that has one, the last entry
    included, waits for all these requests, and only then raises
    IndexError, at the look-up of line 158; the scheduler is closed and
    no record is returned. *)
Theorem malformed_line_then_code_raises (sch : scheduler)
    (outcome_of : sched_state sch -> handle sch -> output)
    (file : list line) (max_entries : option Z) (ws : str)
    (s0 : sched_state sch) (pre : list line) (e : entry) :
  answers sch outcome_of ->
  take_lines max_entries file = pre ++ [Some e] ->
  In None pre ->
  Forall extracts (parsed pre) -> extracts e -> has_code e = true ->
  process_jsonl_file sch true (Some file) max_entries ws s0
  = (Raise IndexError,
     map Submit (codes_of pre)
     ++ [Submit (code_of e); GetAll (S (length (codes_of pre))); Close]).
Proof.
  intros Ha Hf Hin Hes He Hc.
  pose proof (@process_malformed_before_last sch outcome_of Ha file
                max_entries ws s0 pre e Hf Hin Hes He Hc) as Hr.
  assert (Hall : Forall extracts (parsed (take_lines max_entries file))).
  { rewrite Hf. clear - Hes He.
    induction pre as [|[x|] pre IH]; cbn [app parsed] in *.
    - constructor; [exact He | constructor].
    - inversion Hes; subst. constructor; auto.
    - auto. }
  pose proof (@process_lines sch (proj1 Ha) file max_entries ws s0 Hall)
    as Hp.
  cbv zeta in Hp. rewrite Hp in Hr |- *. cbn [fst] in Hr.
  rewrite Hr. f_equal. rewrite Hf, codes_of_app.
  assert (Hl : codes_of [Some e] = [code_of e]).
  { unfold codes_of. cbn [numbered_lines]. rewrite with_code_cons, Hc.
    reflexivity. }
  rewrite Hl. unfold calls_of.
  destruct (codes_of pre ++ [code_of e]) as [|c cs] eqn:E.
  - apply app_eq_nil in E. destruct E; discriminate.
  - rewrite <- E, map_app, length_app, <- app_assoc. cbn [map length app].
    now rewrite Nat.add_1_r.
Qed.

Lemma malformed_line_then_code_raises_witness :
  process_jsonl_file counting true
    (Some [Some entry_with_code; Some entry_without_code; None;
           Some second_entry_with_code])
    None workspace 0
  = (Raise IndexError,
     [Submit proof_exact_h; Submit proof_simp; GetAll 2; Close]).
Proof.
  apply (@malformed_line_then_code_raises counting
           (fun _ h => complete_after h) _ None workspace 0
           [Some entry_with_code; Some entry_without_code; None]
           second_entry_with_code).
  - split; intros; eexists; try eexists; reflexivity.
  - reflexivity.
  - right. right. left. reflexivity.
  - repeat constructor; eexists; vm_compute; reflexivity.
  - eexists. vm_compute. reflexivity.
  - vm_compute. reflexivity.
Defined.

(** X14: the lines that are processed are always a prefix of the lines
    of the file.  A positive cap n keeps the first n lines (all of them
    when the file has fewer); a negative cap -k drops the last k lines
    (all of them when the file has fewer); the cap 0 keeps them all. *)
Theorem cap_keeps_a_prefix (max_entries : option Z) (lines : list line) :
  (exists rest, lines = take_lines max_entries lines ++ rest)
  /\ (forall n, max_entries = Some n ->
       Z.of_nat (length (take_lines max_entries lines))
       = (if n =? 0 then Z.of_nat (length lines)
          else if 0 <? n then Z.min n (Z.of_nat (length lines))
          else Z.max 0 (Z.of_nat (length lines) + n))%Z).
Proof.
  split; [apply take_lines_prefix|]. intros n ->. apply take_lines_length.
Qed.

(** X15: the name of the results file never holds a slash: the results
    are written into the current directory, wherever the input is. *)
Theorem output_file_has_no_slash (file_path : str) :
  ~ occurs slash (output_file file_path).
Proof.
  intro H. apply (occurs_single 47%N) in H.
  unfold output_file, replace in H. apply in_join in H.
  destruct H as [H|(q & Hq & Hc)].
  - vm_compute in H. repeat (destruct H as [H|H]; [discriminate|]).
    contradiction.
  - apply (basename_no_slash file_path). apply (occurs_single 47%N).
    unfold split in Hq. eapply in_split_upto; eassumption.
Qed.

(** X16: for an input [dir/stem.jsonl], or [stem.jsonl] without a
    directory, in which [.jsonl] occurs only at the end of the name, the
    results file is [stem_verification_results.jsonl]. *)
Theorem output_file_of_jsonl (dir stem : str) :
  ~ occurs slash (stem ++ dot_jsonl) ->
  first_occurrence dot_jsonl (stem ++ dot_jsonl) stem [] ->
  output_file (dir ++ slash ++ stem ++ dot_jsonl) = stem ++ results_suffix
  /\ output_file (stem ++ dot_jsonl) = stem ++ results_suffix.
Proof.
  intros Hs Hf. unfold output_file.
  rewrite (basename_dir dir Hs), (basename_plain Hs).
  split; apply replace_last; try assumption; discriminate.
Qed.

Lemma output_file_of_jsonl_witness :
  output_file (of_string "data/minif2f.v2.jsonl")
  = of_string "minif2f.v2_verification_results.jsonl".
Proof.
  refine (proj1 (@output_file_of_jsonl (of_string "data")
                   (of_string "minif2f.v2") _ _)).
  - apply contains_false_iff. vm_compute. reflexivity.
  - split; [now rewrite app_nil_r|].
    apply contains_false_iff. vm_compute. reflexivity.
Defined.

(** X17: when the base name of the input does not hold [.jsonl], the
    results file has the very base name of the input. *)
Theorem output_file_without_jsonl (file_path : str) :
  ~ occurs dot_jsonl (basename file_path) ->
  output_file file_path = basename file_path.
Proof.
  intro H. unfold output_file. apply replace_none; [discriminate | exact H].
Qed.

Lemma output_file_without_jsonl_witness :
  output_file (of_string "data/proofs.json") = of_string "proofs.json".
Proof.
  change (of_string "proofs.json")
    with (basename (of_string "data/proofs.json")).
  apply output_file_without_jsonl.
  apply contains_false_iff. vm_compute. reflexivity.
Defined.

(** X18: the wait asks for the handles of the submissions.  On a
    scheduler that takes every submission, for lines whose entries
    extract and of which one has code, the one wait is made in the state
    the last submission left, for exactly the handles the submissions
    returned, in the order of the submissions; the answer is paired with
    the requests by position and handed to the second loop, and an
    exception of the wait is the exception of the run. *)
Theorem wait_asks_for_issued_handles (sch : scheduler)
    (file : list line) (max_entries : option Z) (ws : str)
    (s0 : sched_state sch) :
  let lines := take_lines max_entries file in
  let ies := with_code (numbered_lines 0 lines) in
  let run := issue sch s0 (map (request_of ws) ies) in
  (forall s rq, exists h s', submit_request sch s rq = (Ok h, s')) ->
  Forall extracts (parsed lines) ->
  ies <> [] ->
  length (fst run) = length ies
  /\ fst (process_jsonl_file sch true (Some file) max_entries ws s0)
     = match get_all_request_outputs sch (snd run) (fst run) with
       | (Ok outs, _) =>
           collect_loop sch (parsed lines)
             (combine (map (@to_id sch) (combine ies (fst run))) outs)
             (map (fun ie => no_code_record (snd ie) (fst ie))
                  (without_code (numbered_lines 0 lines)))
       | (Raise ex, _) => Raise ex
       end
  /\ snd (process_jsonl_file sch true (Some file) max_entries ws s0)
     = map (fun ie => Submit (code_of (snd ie))) ies
       ++ [GetAll (length (fst run)); Close].
Proof.
  cbv zeta. intros Hsub Hes Hne.
  pose proof (@process_lines sch Hsub file max_entries ws s0 Hes) as Hp.
  cbv zeta in Hp. rewrite Hp. cbn [fst snd].
  pose proof (@issue_all sch Hsub
                (map (request_of ws)
                     (with_code
                        (numbered_lines 0 (take_lines max_entries file))))
                s0) as Hl.
  rewrite length_map in Hl. split; [exact Hl|].
  unfold codes_of, calls_of. rewrite Hl.
  destruct (with_code (numbered_lines 0 (take_lines max_entries file)))
    as [|ie ies]; [congruence|].
  split; [reflexivity|]. cbn [map length]. now rewrite length_map, map_map.
Qed.

Lemma wait_asks_for_issued_handles_witness :
  fst (process_jsonl_file reversing true
         (Some [Some entry_with_code; None; Some entry_without_code])
         None workspace [7])
  = Ok [no_code_record entry_without_code 2;
        verified_record entry_with_code 0 proof_exact_h (complete_after 0)]
  /\ snd (process_jsonl_file reversing true
            (Some [Some entry_with_code; None; Some entry_without_code])
            None workspace [7])
     = [Submit proof_exact_h; GetAll 1; Close].
Proof.
  pose proof (@wait_asks_for_issued_handles reversing
                [Some entry_with_code; None; Some entry_without_code]
                None workspace [7]) as H.
  cbv zeta in H. destruct H as (_ & Hr & Ht).
  - intros s rq. eexists. eexists. reflexivity.
  - repeat constructor; eexists; vm_compute; reflexivity.
  - vm_compute. discriminate.
  - split.
    + etransitivity; [exact Hr | vm_compute; reflexivity].
    + etransitivity; [exact Ht | vm_compute; reflexivity].
Defined.

End Extras.
